(** * Secrets rotation: a shallow embedding of [secrets_rotation.py]

    The class [SecretsRotation] talks to a PostgreSQL server through a
    psycopg2 connection in autocommit mode.  The embedding keeps, in one
    [World] record, everything a method can read or change: the server's
    roles and the two tables created by [setup], the wall clock, the entropy
    consumed by [secrets.choice], the in-memory list [self.rotation_history],
    the log, and the sequence of requests sent to the server with the
    outcome of each.

    Methods are functions in a state-and-exception monad [M]; a Python
    exception is the outcome [Raise].  SQL text built by f-strings is
    represented by the statement it denotes ([stmt]); user names are taken
    to be plain identifiers.  The connection is the one opened by [connect]
    ([run_demo] stops when that fails), so [self.conn.cursor()] succeeds. *)

From stdpp Require Import gmap strings list.
From Stdlib Require Import ZArith Ascii String DecimalString.

Local Open Scope Z_scope.
Local Open Scope string_scope.

(** ** Exceptions and outcomes *)

Inductive exn :=
| RecursionError
| IndexError
| OverflowError
| DatabaseError (msg : string).

Definition str_exn (e : exn) : string :=
  match e with
  | RecursionError => "maximum recursion depth exceeded"
  | IndexError => "Cannot choose from an empty sequence"
  | OverflowError => "date value out of range"
  | DatabaseError msg => msg
  end.

Inductive outcome (A : Type) :=
| Ret (a : A)
| Raise (e : exn).
Arguments Ret {A} a.
Arguments Raise {A} e.

(** ** The database server *)

(** A role of the server: its password and the three privilege groups the
    program grants and revokes. *)
Record role := mkRole {
  rolpassword : string;
  db_connect : bool;      (* CONNECT ON DATABASE app_db *)
  schema_usage : bool;    (* USAGE ON SCHEMA public *)
  table_dml : bool        (* SELECT, INSERT, UPDATE, DELETE ON ALL TABLES *)
}.

Definition has_privileges (r : role) : bool :=
  db_connect r || schema_usage r || table_dml r.

(** Rows of [rotation_history]. *)
Record history_row := mkHistoryRow {
  rotation_id : nat;
  h_username : string;
  rotation_date : Z;
  rotation_type : string;
  status : string;
  notes : string
}.

(** Rows of [app_credentials]; [password_hash] and [expires_at] are
    nullable columns. *)
Record cred_row := mkCredRow {
  cred_id : nat;
  service_name : string;
  c_username : string;
  password_hash : option string;
  last_rotated : Z;
  expires_at : option Z
}.

(** A table with a SERIAL primary key: its rows and the state of the
    sequence that feeds the key. *)
Record table (R : Type) := mkTable {
  rows : list R;
  serial : nat
}.
Arguments mkTable {R} rows serial.
Arguments rows {R} t.
Arguments serial {R} t.

Record Database := mkDatabase {
  roles : gmap string role;
  rotation_history_tbl : option (table history_row);
  app_credentials : option (table cred_row)
}.

(** ** Requests sent to the server *)

Inductive stmt :=
| CreateTables
| DropUserIfExists (u : string)
| CreateUser (u pw : string)
| GrantConnect (u : string)
| GrantUsage (u : string)
| GrantTables (u : string)
| AlterUserPassword (u pw : string)
| RevokeTables (u : string)
| RevokeDatabase (u : string)
| RevokeSchema (u : string)
| DropUser (u : string)
| RenameUser (old new : string)
| InsertHistory (u rtype st note : string)
| InsertCredential (service u : string) (expires : Z)
| SelectExpiring.

Inductive request :=
| Execute (s : stmt)
| Connect (user pw : string).

Inductive level := INFO | WARNING | ERROR.

(** Entries of [self.rotation_history]. *)
Record history_entry := mkEntry {
  e_username : string;
  e_timestamp : Z;
  e_status : string
}.

(** ** The world *)

Record World := mkWorld {
  db : Database;
  clock : Z;                         (* seconds; read by datetime.now() and NOW() *)
  entropy : nat -> nat;              (* the system's random stream *)
  drawn : nat;                       (* how much of it has been consumed *)
  faults : nat -> bool;              (* which requests the server fails, by position *)
  trace : list (request * bool);     (* requests sent so far, oldest first,
                                        each with whether it succeeded *)
  open_cursors : nat;
  logs : list (level * string);
  rotation_history : list history_entry
}.

Definition set_db (d : Database) (w : World) : World :=
  mkWorld d (clock w) (entropy w) (drawn w) (faults w) (trace w)
          (open_cursors w) (logs w) (rotation_history w).
Definition set_clock (t : Z) (w : World) : World :=
  mkWorld (db w) t (entropy w) (drawn w) (faults w) (trace w)
          (open_cursors w) (logs w) (rotation_history w).
Definition set_drawn (n : nat) (w : World) : World :=
  mkWorld (db w) (clock w) (entropy w) n (faults w) (trace w)
          (open_cursors w) (logs w) (rotation_history w).
Definition set_trace (t : list (request * bool)) (w : World) : World :=
  mkWorld (db w) (clock w) (entropy w) (drawn w) (faults w) t
          (open_cursors w) (logs w) (rotation_history w).
Definition set_open_cursors (n : nat) (w : World) : World :=
  mkWorld (db w) (clock w) (entropy w) (drawn w) (faults w) (trace w)
          n (logs w) (rotation_history w).
Definition set_logs (l : list (level * string)) (w : World) : World :=
  mkWorld (db w) (clock w) (entropy w) (drawn w) (faults w) (trace w)
          (open_cursors w) l (rotation_history w).
Definition set_rotation_history (h : list history_entry) (w : World) : World :=
  mkWorld (db w) (clock w) (entropy w) (drawn w) (faults w) (trace w)
          (open_cursors w) (logs w) h.

(** ** The monad *)

Definition M (A : Type) : Type := World -> outcome A * World.

Definition ret {A} (a : A) : M A := fun w => (Ret a, w).
Definition raise {A} (e : exn) : M A := fun w => (Raise e, w).

Definition bind {A B} (m : M A) (f : A -> M B) : M B :=
  fun w =>
    match m w with
    | (Ret a, w') => f a w'
    | (Raise e, w') => (Raise e, w')
    end.

(** [try: m except Exception as e: h e]. *)
Definition try_except {A} (m : M A) (h : exn -> M A) : M A :=
  fun w =>
    match m w with
    | (Ret a, w') => (Ret a, w')
    | (Raise e, w') => h e w'
    end.

Notation "'let!' x ':=' m 'in' k" := (bind m (fun x => k))
  (at level 10, x name, m at level 200, k at level 200).
Notation "m ;> k" := (bind m (fun _ => k))
  (at level 100, right associativity).

Definition logger (l : level) (msg : string) : M unit :=
  fun w => (Ret tt, set_logs (logs w ++ [(l, msg)]) w).

Definition datetime_now : M Z := fun w => (Ret (clock w), w).

Definition time_sleep (secs : Z) : M unit :=
  fun w => (Ret tt, set_clock (clock w + secs) w).

(** Rendering of a timestamp inside a message. *)
Definition str_datetime (t : Z) : string := NilZero.string_of_int (Z.to_int t).

(** ** Secret generator *)

Definition ascii_lowercase : string := "abcdefghijklmnopqrstuvwxyz".
Definition ascii_uppercase : string := "ABCDEFGHIJKLMNOPQRSTUVWXYZ".
Definition ascii_letters : string := ascii_lowercase +:+ ascii_uppercase.
Definition digits : string := "0123456789".
Definition symbols : string := "!@#$%^&*".

Definition alphabet : string := ascii_letters +:+ digits +:+ symbols.

(** [str.islower], [str.isupper] and [str.isdigit] on one character; the
    characters here have code points below 128, where the three tests are
    the ASCII ranges. *)
Definition islower (c : ascii) : bool :=
  (97 <=? nat_of_ascii c)%nat && (nat_of_ascii c <=? 122)%nat.
Definition isupper (c : ascii) : bool :=
  (65 <=? nat_of_ascii c)%nat && (nat_of_ascii c <=? 90)%nat.
Definition isdigit (c : ascii) : bool :=
  (48 <=? nat_of_ascii c)%nat && (nat_of_ascii c <=? 57)%nat.

(** [c in s] for a character [c]. *)
Fixpoint char_in (c : ascii) (s : string) : bool :=
  match s with
  | EmptyString => false
  | String d s' => if decide (c = d) then true else char_in c s'
  end.

(** [any(p(c) for c in s)]. *)
Fixpoint any (p : ascii -> bool) (s : string) : bool :=
  match s with
  | EmptyString => false
  | String c s' => p c || any p s'
  end.

(** [secrets.choice(seq)]: the element at a random index below [len(seq)]. *)
Definition secrets_choice (seq : string) : M ascii :=
  fun w =>
    match String.length seq with
    | O => (Raise IndexError, w)
    | S _ =>
        match String.get (entropy w (drawn w) mod String.length seq)%nat seq with
        | Some c => (Ret c, set_drawn (S (drawn w)) w)
        | None => (Raise IndexError, w)
        end
    end.

(** [''.join(secrets.choice(alphabet) for i in range(n))]. *)
Fixpoint sample (n : nat) : M string :=
  match n with
  | O => ret EmptyString
  | S k =>
      let! c := secrets_choice alphabet in
      let! rest := sample k in
      ret (String c rest)
  end.

(** The composition test of [generate_strong_password]. *)
Definition meets_requirements (password : string) : bool :=
  let has_lower := any islower password in
  let has_upper := any isupper password in
  let has_digit := any isdigit password in
  let has_special := any (fun c => char_in c symbols) password in
  has_lower && has_upper && has_digit && has_special.

(** [generate_strong_password(length)].  The method calls itself when the
    sampled value fails the test; [depth] is the number of frames the
    interpreter still allows, and an exhausted stack raises
    [RecursionError]. *)
Fixpoint generate_strong_password (depth : nat) (length : Z) : M string :=
  match depth with
  | O => raise RecursionError
  | S depth' =>
      let! password := sample (Z.to_nat length) in
      if meets_requirements password
      then ret password
      else generate_strong_password depth' length
  end.

(** ** What the server does with a statement *)

Inductive reply :=
| Ok (result : list (string * Z)) (d : Database)
| Error (msg : string).

Definition set_roles (r : gmap string role) (d : Database) : Database :=
  mkDatabase r (rotation_history_tbl d) (app_credentials d).

(** Change one role, or fail when it does not exist. *)
Definition with_role (u : string) (f : role -> role) (d : Database) : reply :=
  match roles d !! u with
  | Some r => Ok [] (set_roles (<[u := f r]> (roles d)) d)
  | None => Error ("role " +:+ u +:+ " does not exist")
  end.

Definition seven_days : Z := 7 * 86400.

(** [WHERE expires_at < NOW() + INTERVAL '7 days']; a NULL never compares. *)
Definition expiring (now : Z) (r : cred_row) : option (string * Z) :=
  match expires_at r with
  | Some e => if (e <? now + seven_days)%Z then Some (c_username r, e) else None
  | None => None
  end.

Definition too_long (n : nat) (s : string) : bool := (n <? String.length s)%nat.

(** A failed statement leaves the database as it was: the connection is in
    autocommit mode and each statement is atomic. *)
Definition exec_stmt (now : Z) (s : stmt) (d : Database) : reply :=
  match s with
  | CreateTables =>
      Ok [] (mkDatabase (roles d)
               (Some (default (mkTable [] 1%nat) (rotation_history_tbl d)))
               (Some (default (mkTable [] 1%nat) (app_credentials d))))
  | DropUserIfExists u =>
      match roles d !! u with
      | None => Ok [] d
      | Some r =>
          if has_privileges r
          then Error ("role " +:+ u +:+ " cannot be dropped because some objects depend on it")
          else Ok [] (set_roles (delete u (roles d)) d)
      end
  | CreateUser u pw =>
      match roles d !! u with
      | Some _ => Error ("role " +:+ u +:+ " already exists")
      | None => Ok [] (set_roles (<[u := mkRole pw false false false]> (roles d)) d)
      end
  | GrantConnect u =>
      with_role u (fun r => mkRole (rolpassword r) true (schema_usage r) (table_dml r)) d
  | GrantUsage u =>
      with_role u (fun r => mkRole (rolpassword r) (db_connect r) true (table_dml r)) d
  | GrantTables u =>
      with_role u (fun r => mkRole (rolpassword r) (db_connect r) (schema_usage r) true) d
  | AlterUserPassword u pw =>
      with_role u (fun r => mkRole pw (db_connect r) (schema_usage r) (table_dml r)) d
  | RevokeTables u =>
      with_role u (fun r => mkRole (rolpassword r) (db_connect r) (schema_usage r) false) d
  | RevokeDatabase u =>
      with_role u (fun r => mkRole (rolpassword r) false (schema_usage r) (table_dml r)) d
  | RevokeSchema u =>
      with_role u (fun r => mkRole (rolpassword r) (db_connect r) false (table_dml r)) d
  | DropUser u =>
      match roles d !! u with
      | None => Error ("role " +:+ u +:+ " does not exist")
      | Some r =>
          if has_privileges r
          then Error ("role " +:+ u +:+ " cannot be dropped because some objects depend on it")
          else Ok [] (set_roles (delete u (roles d)) d)
      end
  | RenameUser old new =>
      match roles d !! old, roles d !! new with
      | None, _ => Error ("role " +:+ old +:+ " does not exist")
      | Some _, Some _ => Error ("role " +:+ new +:+ " already exists")
      | Some r, None => Ok [] (set_roles (<[new := r]> (delete old (roles d))) d)
      end
  | InsertHistory u rtype st note =>
      match rotation_history_tbl d with
      | None => Error "relation rotation_history does not exist"
      | Some t =>
          if too_long 100 u || too_long 50 rtype || too_long 20 st
          then Error "value too long for type character varying"
          else if existsb (fun r => (rotation_id r =? serial t)%nat) (rows t)
          then Error "duplicate key value violates unique constraint rotation_history_pkey"
          else Ok [] (mkDatabase (roles d)
                        (Some (mkTable (rows t ++ [mkHistoryRow (serial t) u now rtype st note])
                                       (S (serial t))))
                        (app_credentials d))
      end
  | InsertCredential service u expires =>
      match app_credentials d with
      | None => Error "relation app_credentials does not exist"
      | Some t =>
          if too_long 100 service || too_long 100 u
          then Error "value too long for type character varying"
          else if existsb (fun r => (cred_id r =? serial t)%nat) (rows t)
          then (* ON CONFLICT DO NOTHING: the primary key is the table's only
                  unique constraint *)
               Ok [] (mkDatabase (roles d) (rotation_history_tbl d)
                        (Some (mkTable (rows t) (S (serial t)))))
          else Ok [] (mkDatabase (roles d) (rotation_history_tbl d)
                        (Some (mkTable
                                 (rows t ++ [mkCredRow (serial t) service u None now (Some expires)])
                                 (S (serial t)))))
      end
  | SelectExpiring =>
      match app_credentials d with
      | None => Error "relation app_credentials does not exist"
      | Some t => Ok (omap (expiring now) (rows t)) d
      end
  end.

(** ** The connection *)

Definition send (r : request) (ok : bool) (w : World) : World :=
  set_trace (trace w ++ [(r, ok)]) w.

(** The server fails the request at position [n] of the connection's life
    when [faults w n] holds, whatever the request. *)
Definition faulty (w : World) : bool := faults w (List.length (trace w)).

Definition conn_cursor : M unit :=
  fun w => (Ret tt, set_open_cursors (S (open_cursors w)) w).

Definition cursor_close : M unit :=
  fun w => (Ret tt, set_open_cursors (Nat.pred (open_cursors w)) w).

(** [cursor.execute(...)], followed by [cursor.fetchall()] for a query. *)
Definition cursor_execute (s : stmt) : M (list (string * Z)) :=
  fun w =>
    if faulty w
    then (Raise (DatabaseError "server closed the connection unexpectedly"),
          send (Execute s) false w)
    else match exec_stmt (clock w) s (db w) with
         | Ok result d' => (Ret result, set_db d' (send (Execute s) true w))
         | Error msg => (Raise (DatabaseError msg), send (Execute s) false w)
         end.

(** [psycopg2.connect(..., user=user, password=pw)] and [close()] of the
    connection obtained. *)
Definition psycopg2_connect (user pw : string) : M unit :=
  fun w =>
    if faulty w
    then (Raise (DatabaseError "could not connect to server"),
          send (Connect user pw) false w)
    else match roles (db w) !! user with
         | Some r =>
             if decide (rolpassword r = pw)
             then (Ret tt, send (Connect user pw) true w)
             else (Raise (DatabaseError "password authentication failed"),
                   send (Connect user pw) false w)
         | None => (Raise (DatabaseError "password authentication failed"),
                    send (Connect user pw) false w)
         end.

(** ** The methods of [SecretsRotation] *)

Definition setup : M unit :=
  conn_cursor ;>
  cursor_execute CreateTables ;>
  cursor_close ;>
  logger INFO "Tables initialized".

Definition create_app_user (username initial_password : string) : M unit :=
  logger INFO ("Creating user: " +:+ username) ;>
  conn_cursor ;>
  try_except
    (cursor_execute (DropUserIfExists username) ;>
     cursor_execute (CreateUser username initial_password) ;>
     cursor_execute (GrantConnect username) ;>
     cursor_execute (GrantUsage username) ;>
     cursor_execute (GrantTables username) ;>
     logger INFO ("User " +:+ username +:+ " created successfully"))
    (fun e => logger ERROR ("Failed to create user: " +:+ str_exn e)) ;>
  cursor_close.

(** A [try] block whose handler returns from the method yields [Some v];
    falling out of the block yields [None] and the method goes on. *)
Definition rotate_password (depth : nat) (username : string)
    (simulate_app_update : bool) : M bool :=
  logger INFO ("Starting password rotation for: " +:+ username) ;>
  conn_cursor ;>
  (* Step 1: Generate new password *)
  let! new_password := generate_strong_password depth 32 in
  logger INFO "  Step 1: New password generated" ;>
  (* Step 2: Update database password *)
  let! returned :=
    try_except
      (cursor_execute (AlterUserPassword username new_password) ;>
       logger INFO "  Step 2: Database password updated" ;>
       ret None)
      (fun e =>
         logger ERROR ("  Failed to update password: " +:+ str_exn e) ;>
         cursor_close ;>
         ret (Some false)) in
  match returned with
  | Some v => ret v
  | None =>
      (* Step 3: Simulate application config update *)
      let! returned :=
        if simulate_app_update then
          logger INFO "  Step 3: Updating application configuration..." ;>
          time_sleep 1 ;>
          (* Verify new password works *)
          try_except
            (psycopg2_connect username new_password ;>
             logger INFO "  Step 4: New password verified" ;>
             ret None)
            (fun _ =>
               logger ERROR "  New password verification failed!" ;>
               cursor_close ;>
               ret (Some false))
        else ret None in
      match returned with
      | Some v => ret v
      | None =>
          (* Record rotation *)
          let! now := datetime_now in
          cursor_execute
            (InsertHistory username "password_rotation" "success"
               ("Password rotated at " +:+ str_datetime now)) ;>
          let! now := datetime_now in
          (fun w =>
             (Ret tt,
              set_rotation_history
                (rotation_history w ++ [mkEntry username now "success"]) w)) ;>
          cursor_close ;>
          logger INFO ("Password rotation complete for " +:+ username) ;>
          ret true
      end
  end.

Definition rotate_with_dual_password (depth : nat) (username : string) : M bool :=
  logger INFO ("Starting dual-password rotation for: " +:+ username) ;>
  conn_cursor ;>
  (* Step 1: Create temporary user with new password *)
  let temp_user := username +:+ "_new" in
  let! new_password := generate_strong_password depth 32 in
  let! returned :=
    try_except
      (cursor_execute (DropUserIfExists temp_user) ;>
       cursor_execute (CreateUser temp_user new_password) ;>
       cursor_execute (GrantConnect temp_user) ;>
       cursor_execute (GrantUsage temp_user) ;>
       cursor_execute (GrantTables temp_user) ;>
       logger INFO "  Step 1: Temporary user created with new password" ;>
       ret None)
      (fun e =>
         logger ERROR ("  Failed: " +:+ str_exn e) ;>
         cursor_close ;>
         ret (Some false)) in
  match returned with
  | Some v => ret v
  | None =>
      (* Step 2: Application can now use EITHER old or new user *)
      logger INFO "  Step 2: Transition period - both credentials active" ;>
      time_sleep 2 ;>
      (* Step 3: Verify all apps switched to new credential *)
      logger INFO "  Step 3: Verifying all connections migrated..." ;>
      time_sleep 1 ;>
      (* Step 4: Remove old user *)
      cursor_execute (RevokeTables username) ;>
      cursor_execute (RevokeDatabase username) ;>
      cursor_execute (RevokeSchema username) ;>
      cursor_execute (DropUser username) ;>
      cursor_execute (RenameUser temp_user username) ;>
      (* Record rotation *)
      cursor_execute
        (InsertHistory username "dual_password_rotation" "success"
           "Zero-downtime rotation complete") ;>
      cursor_close ;>
      logger INFO "Dual-password rotation complete" ;>
      ret true
  end.

(** [timedelta(days=d)] accepts at most 999999999 days either way, and a
    [datetime] lies between years 1 and 9999; both overflow otherwise. *)
Definition datetime_min : Z := -62135596800.
Definition datetime_max : Z := 253402300799.

Definition timedelta_days (d : Z) : M Z :=
  if (Z.abs d <=? 999999999)%Z then ret (d * 86400) else raise OverflowError.

Definition datetime_add (t delta : Z) : M Z :=
  if (datetime_min <=? t + delta)%Z && (t + delta <=? datetime_max)%Z
  then ret (t + delta) else raise OverflowError.

Definition schedule_rotation (username : string) (days_until_expire : Z) : M unit :=
  conn_cursor ;>
  let! now := datetime_now in
  let! delta := timedelta_days days_until_expire in
  let! expires_at := datetime_add now delta in
  cursor_execute (InsertCredential "database" username expires_at) ;>
  cursor_close ;>
  logger INFO ("Rotation scheduled for " +:+ username +:+ " at " +:+ str_datetime expires_at).

Definition str_nat (n : nat) : string := NilZero.string_of_uint (Nat.to_uint n).

(** [for username, expires in expired: logger.warning(...)]. *)
Fixpoint warn_each (expired : list (string * Z)) : M unit :=
  match expired with
  | [] => ret tt
  | (username, expires) :: rest =>
      logger WARNING ("  " +:+ username +:+ " expires: " +:+ str_datetime expires) ;>
      warn_each rest
  end.

Definition check_expired_credentials : M (list (string * Z)) :=
  conn_cursor ;>
  let! expired := cursor_execute SelectExpiring in
  cursor_close ;>
  (match expired with
   | [] => ret tt
   | _ :: _ =>
       logger WARNING ("Found " +:+ str_nat (List.length expired) +:+ " credential(s) expiring soon") ;>
       warn_each expired
   end) ;>
  ret expired.

(** ** Sample worlds *)

(** A server with no role and no table yet, a clock at [t], the random
    stream [e] and the failure pattern [f]. *)
Definition blank_world (t : Z) (e : nat -> nat) (f : nat -> bool) : World :=
  mkWorld (mkDatabase ∅ None None) t e 0 f [] 0 [] [].

Definition no_faults : nat -> bool := fun _ => false.

(** Only the request at position [n] fails. *)
Definition fault_at (n : nat) : nat -> bool := fun k => (k =? n)%nat.

Definition run {A} (m : M A) (w : World) : World := snd (m w).

(** * Properties *)

(** ** Secret generator *)

Definition chars (s : string) : list ascii := list_ascii_of_string s.

(** [s] has a character of the class [cls]. *)
Definition contains (s cls : string) : Prop :=
  exists c, In c (chars s) /\ In c (chars cls).

Lemma char_in_In c s : char_in c s = true <-> In c (chars s).
Proof.
  induction s as [|d s IH]; simpl.
  - split; [discriminate | tauto].
  - destruct (decide (c = d)) as [->|Hne].
    + split; auto.
    + rewrite IH. split; [auto | intros [Heq|H]; [congruence | exact H]].
Qed.

Lemma any_In p s : any p s = true <-> exists c, In c (chars s) /\ p c = true.
Proof.
  induction s as [|d s IH]; simpl.
  - split; [discriminate | intros (c & [] & _)].
  - rewrite orb_true_iff, IH. split.
    + intros [H | (c & Hc & Hp)]; [exists d | exists c]; auto.
    + intros (c & [-> | Hc] & Hp); [left | right; exists c]; auto.
Qed.

Lemma islower_lowercase c : islower c = true -> In c (chars ascii_lowercase).
Proof.
  intros H. apply char_in_In. revert H.
  destruct c as [[] [] [] [] [] [] [] []]; vm_compute; congruence.
Qed.

Lemma isupper_uppercase c : isupper c = true -> In c (chars ascii_uppercase).
Proof.
  intros H. apply char_in_In. revert H.
  destruct c as [[] [] [] [] [] [] [] []]; vm_compute; congruence.
Qed.

Lemma isdigit_digits c : isdigit c = true -> In c (chars digits).
Proof.
  intros H. apply char_in_In. revert H.
  destruct c as [[] [] [] [] [] [] [] []]; vm_compute; congruence.
Qed.

Lemma meets_requirements_contains p :
  meets_requirements p = true ->
  contains p ascii_lowercase /\ contains p ascii_uppercase /\
  contains p digits /\ contains p symbols.
Proof.
  unfold meets_requirements. cbv zeta.
  rewrite !andb_true_iff, !any_In.
  intros [[[(a & Ha & La) (b & Hb & Ub)] (c & Hc & Dc)] (d & Hd & Sd)].
  repeat split.
  - exists a. auto using islower_lowercase.
  - exists b. auto using isupper_uppercase.
  - exists c. auto using isdigit_digits.
  - exists d. split; [assumption | by apply char_in_In].
Qed.

(** The four classes are disjoint, so a value that passes the test has at
    least four characters. *)
Definition classes_of (c : ascii) : nat :=
  (Nat.b2n (islower c) + Nat.b2n (isupper c) + Nat.b2n (isdigit c)
   + Nat.b2n (char_in c symbols))%nat.

Lemma classes_of_le_1 c : (classes_of c <= 1)%nat.
Proof.
  destruct c as [[] [] [] [] [] [] [] []]; vm_compute; lia.
Qed.

Lemma classes_present_le_length p :
  (Nat.b2n (any islower p) + Nat.b2n (any isupper p) + Nat.b2n (any isdigit p)
   + Nat.b2n (any (fun c => char_in c symbols) p) <= String.length p)%nat.
Proof.
  induction p as [|c p IH]; [simpl; lia|].
  pose proof (classes_of_le_1 c) as Hc. unfold classes_of in Hc.
  cbn [any String.length].
  destruct (islower c), (isupper c), (isdigit c), (char_in c symbols);
    cbn [Nat.b2n orb] in *; try lia;
    destruct (any islower p), (any isupper p), (any isdigit p),
      (any (fun c => char_in c symbols) p); cbn [Nat.b2n] in *; lia.
Qed.

Lemma meets_requirements_length p :
  meets_requirements p = true -> (4 <= String.length p)%nat.
Proof.
  unfold meets_requirements. cbv zeta. rewrite !andb_true_iff.
  intros [[[Hl Hu] Hd] Hs].
  pose proof (classes_present_le_length p) as H.
  rewrite Hl, Hu, Hd, Hs in H. exact H.
Qed.

Lemma get_in_range n s :
  (n < String.length s)%nat -> exists c, String.get n s = Some c.
Proof.
  revert n. induction s as [|d s IH]; intros n Hn; simpl in Hn; [lia|].
  destruct n as [|n]; simpl; [eauto | apply IH; lia].
Qed.

Lemma alphabet_length : String.length alphabet = 70%nat.
Proof. reflexivity. Qed.

(** Drawing consumes entropy and touches nothing else. *)
Lemma secrets_choice_alphabet w :
  exists c, secrets_choice alphabet w = (Ret c, set_drawn (S (drawn w)) w).
Proof.
  unfold secrets_choice. rewrite alphabet_length.
  destruct (get_in_range (entropy w (drawn w) mod 70) alphabet) as [c Hc].
  - rewrite alphabet_length. apply Nat.mod_upper_bound. lia.
  - rewrite Hc. eauto.
Qed.

Lemma set_drawn_set_drawn a b w : set_drawn a (set_drawn b w) = set_drawn a w.
Proof. reflexivity. Qed.

Lemma sample_spec n w :
  exists p, sample n w = (Ret p, set_drawn (drawn w + n) w) /\ String.length p = n.
Proof.
  revert w. induction n as [|n IH]; intros w.
  - exists EmptyString. split; [|reflexivity]. unfold sample, ret.
    rewrite Nat.add_0_r. by destruct w.
  - destruct (secrets_choice_alphabet w) as [c Hc].
    destruct (IH (set_drawn (S (drawn w)) w)) as (p & Hp & Hlen).
    exists (String c p). split; [|simpl; congruence].
    cbn [sample]. unfold bind. rewrite Hc, Hp. unfold ret.
    rewrite set_drawn_set_drawn. cbn [drawn set_drawn].
    by replace (S (drawn w) + n)%nat with (drawn w + S n)%nat by lia.
Qed.

(** Every run of the generator ends in one of two ways: a value that passed
    the test, or the interpreter's [RecursionError] after [depth] samples. *)
Lemma generate_strong_password_cases depth length w :
  (exists p k, (k < depth)%nat /\
     generate_strong_password depth length w
       = (Ret p, set_drawn (drawn w + S k * Z.to_nat length) w) /\
     meets_requirements p = true /\ String.length p = Z.to_nat length)
  \/ generate_strong_password depth length w
       = (Raise RecursionError, set_drawn (drawn w + depth * Z.to_nat length) w).
Proof.
  revert w. induction depth as [|depth IH]; intros w.
  - right. cbn [generate_strong_password]. unfold raise.
    rewrite Nat.mul_0_l, Nat.add_0_r. by destruct w.
  - cbn [generate_strong_password]. unfold bind.
    destruct (sample_spec (Z.to_nat length) w) as (p & Hp & Hlen). rewrite Hp.
    destruct (meets_requirements p) eqn:Hm.
    + left. exists p, 0%nat. repeat split; [lia | | done | done].
      unfold ret. by rewrite Nat.mul_1_l.
    + destruct (IH (set_drawn (drawn w + Z.to_nat length) w))
        as [(q & k & Hk & Hq & Hmq & Hlq) | Hq]; rewrite Hq.
      * left. exists q, (S k). repeat split; [lia | | done | done].
        rewrite set_drawn_set_drawn. cbn [drawn set_drawn]. do 2 f_equal. lia.
      * right. rewrite set_drawn_set_drawn. cbn [drawn set_drawn]. do 2 f_equal. lia.
Qed.

(** The generator reads the random stream and nothing else: two worlds with
    the same stream at the same position yield the same outcome. *)
Lemma secrets_choice_frame seq w w' :
  entropy w = entropy w' -> drawn w = drawn w' ->
  fst (secrets_choice seq w) = fst (secrets_choice seq w').
Proof.
  intros He Hd. unfold secrets_choice. rewrite He, Hd.
  destruct (String.length seq); [done|]. by case_match.
Qed.

Lemma sample_frame n w w' :
  entropy w = entropy w' -> drawn w = drawn w' ->
  fst (sample n w) = fst (sample n w').
Proof.
  revert w w'. induction n as [|n IH]; intros w w' He Hd; [done|].
  cbn [sample]. unfold bind.
  pose proof (secrets_choice_frame alphabet w w' He Hd) as Hc.
  destruct (secrets_choice_alphabet w) as [c Hw].
  destruct (secrets_choice_alphabet w') as [c' Hw'].
  rewrite Hw, Hw' in *. cbn [fst] in Hc. injection Hc as <-.
  specialize (IH (set_drawn (S (drawn w)) w) (set_drawn (S (drawn w')) w')).
  destruct (sample_spec n (set_drawn (S (drawn w)) w)) as (p & Hp & _).
  destruct (sample_spec n (set_drawn (S (drawn w')) w')) as (p' & Hp' & _).
  rewrite Hp, Hp' in *. cbn [fst] in IH.
  assert (Ret p = Ret p') as [= <-]; [|done].
  apply IH; [done | cbn; congruence].
Qed.

Lemma generate_strong_password_frame depth length w w' :
  entropy w = entropy w' -> drawn w = drawn w' ->
  fst (generate_strong_password depth length w)
    = fst (generate_strong_password depth length w').
Proof.
  revert w w'. induction depth as [|depth IH]; intros w w' He Hd; [done|].
  cbn [generate_strong_password]. unfold bind.
  pose proof (sample_frame (Z.to_nat length) w w' He Hd) as Hs.
  destruct (sample_spec (Z.to_nat length) w) as (p & Hp & _).
  destruct (sample_spec (Z.to_nat length) w') as (p' & Hp' & _).
  rewrite Hp, Hp' in *. cbn [fst] in Hs. injection Hs as <-.
  destruct (meets_requirements p); [done|].
  apply IH; [done | cbn; congruence].
Qed.

(** C5. Whatever the length, a value returned by [generate_strong_password]
    has at least one lowercase letter, one uppercase letter, one digit and
    one of the symbols [!@#$%^&*]. *)
Theorem generate_strong_password_composition depth length w password w' :
  generate_strong_password depth length w = (Ret password, w') ->
  contains password ascii_lowercase /\ contains password ascii_uppercase /\
  contains password digits /\ contains password symbols.
Proof.
  intros Hgen.
  destruct (generate_strong_password_cases depth length w)
    as [(p & k & _ & Hp & Hm & _) | Hraise].
  - rewrite Hp in Hgen. injection Hgen as <- _.
    by apply meets_requirements_contains.
  - rewrite Hraise in Hgen. discriminate.
Qed.

(** The default length, on a stream whose first 32 draws pass the test. *)
Lemma generate_strong_password_composition_witness :
  let w := blank_world 0 (fun n => 17 * n)%nat no_faults in
  generate_strong_password 1 32 w
    = (Ret "arIZ&pGX%nEV#lCT!jAR8hyP6fwN4duL", set_drawn 32 w) /\
  (contains "arIZ&pGX%nEV#lCT!jAR8hyP6fwN4duL" ascii_lowercase /\
   contains "arIZ&pGX%nEV#lCT!jAR8hyP6fwN4duL" ascii_uppercase /\
   contains "arIZ&pGX%nEV#lCT!jAR8hyP6fwN4duL" digits /\
   contains "arIZ&pGX%nEV#lCT!jAR8hyP6fwN4duL" symbols).
Proof.
  intros w. split; [reflexivity|].
  apply (generate_strong_password_composition 1 32 w _ (set_drawn 32 w)).
  reflexivity.
Defined.

(** A length below four can never pass the test. *)
Lemma generate_strong_password_short depth length w :
  length < 4 ->
  generate_strong_password depth length w
    = (Raise RecursionError, set_drawn (drawn w + depth * Z.to_nat length) w).
Proof.
  intros Hlen.
  destruct (generate_strong_password_cases depth length w)
    as [(p & k & _ & _ & Hm & Hl) | Hraise]; [|exact Hraise].
  apply meets_requirements_length in Hm. lia.
Qed.

(** C2, as stated, fails: with length 3 the method has no retry bound.  Given
    150 frames it samples 150 candidates and ends in [RecursionError], and no
    number bounds the samples it draws over all depths. *)
Lemma generate_strong_password_retries_unbounded :
  (let w := blank_world 0 (fun n => n) no_faults in
   generate_strong_password 150 3 w = (Raise RecursionError, set_drawn (150 * 3) w)) /\
  ~ (exists bound : nat, forall depth w,
       (drawn (snd (generate_strong_password depth 3 w)) <= drawn w + bound * 3)%nat).
Proof.
  split.
  - intros w. by rewrite generate_strong_password_short.
  - intros [bound Hbound].
    specialize (Hbound (S bound) (blank_world 0 (fun n => n) no_faults)).
    rewrite generate_strong_password_short in Hbound by lia.
    cbn [snd drawn set_drawn blank_world] in Hbound.
    change (Z.to_nat 3) with 3%nat in Hbound. lia.
Qed.

(** C2, amended.  When the composition rules cannot be met (a length below
    four) the method resamples once for every stack frame the interpreter
    still allows, and then ends in the interpreter's [RecursionError]: for
    every number of frames [depth] it has drawn [depth] candidates. *)
Theorem generate_strong_password_unsatisfiable depth length w :
  length < 4 ->
  fst (generate_strong_password depth length w) = Raise RecursionError /\
  drawn (snd (generate_strong_password depth length w))
    = (drawn w + depth * Z.to_nat length)%nat.
Proof.
  intros Hlen. by rewrite generate_strong_password_short.
Qed.

Lemma generate_strong_password_unsatisfiable_witness :
  let w := blank_world 0 (fun n => 17 * n)%nat no_faults in
  fst (generate_strong_password 1000 3 w) = Raise RecursionError /\
  drawn (snd (generate_strong_password 1000 3 w)) = 3000%nat.
Proof.
  intros w.
  apply (generate_strong_password_unsatisfiable 1000 3 w). lia.
Defined.

(** ** Requests: how one [cursor.execute] can end *)

Lemma cursor_execute_cases s w :
  (exists e,
     (faulty w = true \/ exists msg, exec_stmt (clock w) s (db w) = Error msg) /\
     cursor_execute s w = (Raise e, send (Execute s) false w)) \/
  (exists result d',
     faulty w = false /\ exec_stmt (clock w) s (db w) = Ok result d' /\
     cursor_execute s w = (Ret result, set_db d' (send (Execute s) true w))).
Proof.
  unfold cursor_execute. destruct (faulty w); [left; eauto|].
  destruct (exec_stmt (clock w) s (db w)) as [result d'|msg]; [right|left]; eauto 7.
Qed.

Lemma psycopg2_connect_cases user pw w :
  (exists e, psycopg2_connect user pw w = (Raise e, send (Connect user pw) false w)) \/
  (exists r, faulty w = false /\ roles (db w) !! user = Some r /\ rolpassword r = pw /\
     psycopg2_connect user pw w = (Ret tt, send (Connect user pw) true w)).
Proof.
  unfold psycopg2_connect. destruct (faulty w); [left; eauto|].
  destruct (roles (db w) !! user) as [r|]; [|left; eauto].
  destruct (decide (rolpassword r = pw)); [right|left]; eauto 6.
Qed.

(** Bring every world of the goal to the form [mkWorld ...], so that the
    state stays of a size linear in the number of steps taken. *)
Ltac world_norm :=
  cbv beta iota zeta delta
    [fst snd db clock entropy drawn faults trace open_cursors logs
     rotation_history set_db set_clock set_drawn set_trace set_open_cursors
     set_logs set_rotation_history send].

(** Reduce the projections of a world built by the setters, everywhere. *)
Ltac world_simpl :=
  cbn [fst snd db clock entropy drawn faults trace open_cursors logs
       rotation_history set_db set_clock set_drawn set_trace set_open_cursors
       set_logs set_rotation_history send] in *.

(** Symbolic execution: split on the next request, then push the result
    through the surrounding [bind]s and handlers. *)
Ltac exec_request :=
  match goal with
  | |- context [cursor_execute ?s ?w] =>
      let e := fresh "e" in
      let result := fresh "result" in
      let d := fresh "d" in
      let Hfault := fresh "Hfault" in
      let Hexec := fresh "Hexec" in
      let H := fresh "H" in
      let Hwhy := fresh "Hwhy" in
      destruct (cursor_execute_cases s w)
        as [(e & Hwhy & H) | (result & d & Hfault & Hexec & H)];
      rewrite H; clear H; world_norm
  | |- context [psycopg2_connect ?u ?p ?w] =>
      let e := fresh "e" in
      let r := fresh "r" in
      let Hfault := fresh "Hfault" in
      let Hrole := fresh "Hrole" in
      let Hpw := fresh "Hpw" in
      let H := fresh "H" in
      destruct (psycopg2_connect_cases u p w)
        as [(e & H) | (r & Hfault & Hrole & Hpw & H)];
      rewrite H; clear H; world_norm
  end.

Ltac unfold_method :=
  unfold bind, try_except, ret, raise, logger, conn_cursor, cursor_close,
    time_sleep, datetime_now; world_norm.

(** ** [create_app_user] *)

(** C10. [create_app_user] returns [None] whatever happens on the server:
    no exception of the drop/create/grant sequence reaches the caller, and
    the same value comes back when the role was created and when it was
    not. *)
Theorem create_app_user_silent :
  (forall username initial_password w,
     fst (create_app_user username initial_password w) = Ret tt) /\
  (let ok := run setup (blank_world 1000 (fun n => n) no_faults) in
   let ko := run setup (blank_world 1000 (fun n => n) (fault_at 2)) in
   let call := create_app_user "app_service" "InitialPass123!" in
   fst (call ok) = fst (call ko) /\
   roles (db (run call ok)) !! "app_service"
     = Some (mkRole "InitialPass123!" true true true) /\
   roles (db (run call ko)) !! "app_service" = None /\
   logs (run call ko)
     = (logs ko ++ [(INFO, "Creating user: app_service");
                    (ERROR, "Failed to create user: server closed the connection unexpectedly")])%list).
Proof.
  split.
  - intros username initial_password [].
    unfold create_app_user. unfold_method.
    repeat (exec_request; [reflexivity|]). reflexivity.
  - repeat split; vm_compute; reflexivity.
Qed.

(** ** Expiry tracking *)

Definition credentials (w : World) : list cred_row :=
  match app_credentials (db w) with
  | Some t => rows t
  | None => []
  end.

(** The schedules stored for a principal. *)
Definition schedules_of (u : string) (w : World) : list Z :=
  omap (fun r => if decide (c_username r = u) then expires_at r else None)
       (credentials w).

(** C3 fails on the code.  [setup] declares no unique constraint on
    [app_credentials] other than the serial key, so [ON CONFLICT DO NOTHING]
    never fires: two calls for one principal, a minute apart, store two
    schedules, the second with its own expiry. *)
Theorem schedule_rotation_twice_stores_two :
  let w := run setup (blank_world 1000 (fun n => n) no_faults) in
  let w1 := run (schedule_rotation "svc_a" 90) w in
  let w2 := run (schedule_rotation "svc_a" 90) (run (time_sleep 60) w1) in
  schedules_of "svc_a" w1 = [1000 + 90 * 86400] /\
  schedules_of "svc_a" w2 = [1000 + 90 * 86400; 1060 + 90 * 86400].
Proof. split; vm_compute; reflexivity. Qed.

Lemma warn_each_logs expired w :
  exists l, warn_each expired w = (Ret tt, set_logs l w).
Proof.
  revert w. induction expired as [|[u e] rest IH]; intros w.
  - exists (logs w). by destruct w.
  - destruct w. cbn [warn_each]. unfold_method.
    match goal with |- context [warn_each rest ?w'] =>
      destruct (IH w') as [l Hl] end.
    rewrite Hl. by exists l.
Qed.

Lemma exec_select_expiring now d result d' :
  exec_stmt now SelectExpiring d = Ok result d' ->
  d' = d /\ exists t, app_credentials d = Some t /\ result = omap (expiring now) (rows t).
Proof.
  cbn [exec_stmt]. destruct (app_credentials d) as [t|]; [|discriminate].
  intros [= <- <-]. eauto.
Qed.

Lemma check_expired_credentials_pure w :
  db (snd (check_expired_credentials w)) = db w /\
  rotation_history (snd (check_expired_credentials w)) = rotation_history w /\
  clock (snd (check_expired_credentials w)) = clock w.
Proof.
  destruct w. unfold check_expired_credentials. unfold_method.
  exec_request; [done|]. world_simpl.
  apply exec_select_expiring in Hexec as [-> _].
  destruct result as [|x rest].
  - repeat split.
  - match goal with |- context [warn_each ?l ?w'] =>
      destruct (warn_each_logs l w') as [l' ->] end.
    repeat split.
Qed.

Lemma check_expired_credentials_result w t :
  faulty w = false ->
  app_credentials (db w) = Some t ->
  fst (check_expired_credentials w) = Ret (omap (expiring (clock w)) (rows t)).
Proof.
  intros Hf Ht. destruct w.
  unfold check_expired_credentials. unfold_method.
  unfold cursor_execute, faulty in *. world_simpl.
  rewrite Hf. cbn [exec_stmt]. rewrite Ht. world_norm.
  match goal with |- context [omap ?f ?l] =>
    destruct (omap f l) as [|x rest]; [done|] end.
  match goal with |- context [warn_each ?l ?w'] =>
    destruct (warn_each_logs l w') as [l' ->] end.
  done.
Qed.

Lemma In_expiring now (l : list cred_row) u e :
  In (u, e) (omap (expiring now) l) <->
  exists r, In r l /\ c_username r = u /\ expires_at r = Some e /\ e < now + 7 * 86400.
Proof.
  rewrite <- list_elem_of_In, list_elem_of_omap. unfold expiring, seven_days.
  split.
  - intros (r & Hr & Hx). exists r. rewrite <- list_elem_of_In.
    destruct (expires_at r) as [e'|]; [|discriminate].
    destruct (Z.ltb_spec e' (now + 7 * 86400)); [|discriminate].
    by injection Hx as <- <-.
  - intros (r & Hr & <- & He & Hlt). exists r. rewrite list_elem_of_In.
    split; [done|]. rewrite He.
    destruct (Z.ltb_spec e (now + 7 * 86400)); [done | lia].
Qed.

(** C7. [check_expired_credentials] changes neither the database nor
    [self.rotation_history], and when the query goes through it returns the
    pairs (principal, expiry) of the stored schedules that expire earlier
    than seven days from now: one at now + 3 days is returned, one at
    now + 30 days is not. *)
Theorem check_expired_credentials_scan w :
  db (snd (check_expired_credentials w)) = db w /\
  rotation_history (snd (check_expired_credentials w)) = rotation_history w /\
  forall t, faulty w = false -> app_credentials (db w) = Some t ->
    exists expired,
      fst (check_expired_credentials w) = Ret expired /\
      (forall u e, In (u, e) expired <->
         exists r, In r (rows t) /\ c_username r = u /\ expires_at r = Some e /\
                   e < clock w + 7 * 86400) /\
      (forall r, In r (rows t) -> expires_at r = Some (clock w + 3 * 86400) ->
         In (c_username r, clock w + 3 * 86400) expired) /\
      (forall u, ~ In (u, clock w + 30 * 86400) expired).
Proof.
  destruct (check_expired_credentials_pure w) as (Hdb & Hhist & _).
  repeat split; [done | done |].
  intros t Hf Ht. exists (omap (expiring (clock w)) (rows t)).
  split; [by apply check_expired_credentials_result|].
  split; [apply In_expiring|]. split.
  - intros r Hr He. apply In_expiring. exists r. repeat split; [done | done | lia].
  - intros u Hin. apply In_expiring in Hin as (r & _ & _ & _ & Hlt). lia.
Qed.

(** Two schedules, three and thirty days ahead: the scan returns the first
    and not the second, and leaves the table as it was. *)
Lemma check_expired_credentials_scan_witness :
  let w := run (schedule_rotation "svc_b" 30)
             (run (schedule_rotation "svc_a" 3)
                (run setup (blank_world 1000 (fun n => n) no_faults))) in
  credentials (snd (check_expired_credentials w)) = credentials w /\
  exists expired,
    fst (check_expired_credentials w) = Ret expired /\
    In ("svc_a", 1000 + 3 * 86400) expired /\
    ~ In ("svc_b", 1000 + 30 * 86400) expired.
Proof.
  intros w.
  destruct (check_expired_credentials_scan w) as (Hdb & _ & Hscan).
  split; [unfold credentials; by rewrite Hdb|].
  destruct (Hscan (mkTable (credentials w) 3%nat))
    as (expired & Hret & _ & Hnear & Hfar);
    [vm_compute; reflexivity | vm_compute; reflexivity |].
  exists expired. split; [exact Hret|]. split.
  - apply (Hnear (mkCredRow 1 "database" "svc_a" None 1000 (Some (1000 + 3 * 86400)))).
    + vm_compute. left. reflexivity.
    + vm_compute. reflexivity.
  - apply (Hfar "svc_b").
Defined.

(** ** Rotation: what a run leaves behind *)

(** The audit records: rows of the table [rotation_history]. *)
Definition audit (w : World) : list history_row :=
  match rotation_history_tbl (db w) with
  | Some t => rows t
  | None => []
  end.

(** The requests sent to the server between [w] and [w']. *)
Definition sent (w w' : World) : list (request * bool) :=
  drop (List.length (trace w)) (trace w').

(** The statements of the dual rotation, by phase. *)
Definition shadow_step (s : stmt) : bool :=
  match s with
  | DropUserIfExists _ | CreateUser _ _ | GrantConnect _ | GrantUsage _
  | GrantTables _ => true
  | _ => false
  end.

Definition retirement_step (s : stmt) : bool :=
  match s with
  | RevokeTables _ | RevokeDatabase _ | RevokeSchema _ | DropUser _
  | RenameUser _ _ => true
  | _ => false
  end.

(** The roles a statement names. *)
Definition targets (s : stmt) : list string :=
  match s with
  | DropUserIfExists u | CreateUser u _ | GrantConnect u | GrantUsage u
  | GrantTables u | AlterUserPassword u _ | RevokeTables u | RevokeDatabase u
  | RevokeSchema u | DropUser u => [u]
  | RenameUser old new => [old; new]
  | CreateTables | InsertHistory _ _ _ _ | InsertCredential _ _ _
  | SelectExpiring => []
  end.

Lemma with_role_frame u f d d' result :
  with_role u f d = Ok result d' ->
  rotation_history_tbl d' = rotation_history_tbl d /\
  app_credentials d' = app_credentials d /\
  (forall x, x <> u -> roles d' !! x = roles d !! x).
Proof.
  unfold with_role. destruct (roles d !! u); [|discriminate].
  intros [= _ <-]. repeat split. intros x Hx. cbn. by rewrite lookup_insert_ne.
Qed.

(** A statement leaves alone every role it does not name. *)
Lemma exec_stmt_roles_frame now s d result d' x :
  exec_stmt now s d = Ok result d' ->
  ~ In x (targets s) ->
  roles d' !! x = roles d !! x.
Proof.
  destruct s; cbn [exec_stmt targets In]; intros Hexec Hx;
    try (eapply with_role_frame in Hexec as (_ & _ & Hr); apply Hr; intros ->; tauto).
  - by injection Hexec as _ <-.
  - destruct (roles d !! u) as [r|]; [destruct (has_privileges r)|];
      simplify_eq; [|done]. cbn. rewrite lookup_delete_ne; [done | tauto].
  - destruct (roles d !! u); simplify_eq. cbn. rewrite lookup_insert_ne; [done | tauto].
  - destruct (roles d !! u) as [r|]; [destruct (has_privileges r)|];
      simplify_eq. cbn. rewrite lookup_delete_ne; [done | tauto].
  - destruct (roles d !! old), (roles d !! new); simplify_eq. cbn.
    rewrite lookup_insert_ne, lookup_delete_ne; [done | tauto | tauto].
  - destruct (rotation_history_tbl d); [|discriminate].
    repeat (case_match; simplify_eq). done.
  - destruct (app_credentials d); [|discriminate].
    repeat (case_match; simplify_eq); done.
  - destruct (app_credentials d); simplify_eq. done.
Qed.

(** Only [INSERT INTO rotation_history] changes the audit table, and it adds
    one row, built from the statement's arguments and the clock. *)
Lemma exec_stmt_history_frame now s d result d' :
  exec_stmt now s d = Ok result d' ->
  (forall u rtype st note, s <> InsertHistory u rtype st note) ->
  s <> CreateTables ->
  rotation_history_tbl d' = rotation_history_tbl d.
Proof.
  destruct s; cbn [exec_stmt]; intros Hexec Hs Hc;
    try (by eapply with_role_frame in Hexec as (-> & _ & _)).
  - done.
  - destruct (roles d !! u) as [r|]; [destruct (has_privileges r)|]; by simplify_eq.
  - destruct (roles d !! u); by simplify_eq.
  - destruct (roles d !! u) as [r|]; [destruct (has_privileges r)|]; by simplify_eq.
  - destruct (roles d !! old), (roles d !! new); by simplify_eq.
  - by destruct (Hs u rtype st note).
  - destruct (app_credentials d); [|discriminate].
    repeat (case_match; simplify_eq); done.
  - destruct (app_credentials d); by simplify_eq.
Qed.

Lemma exec_insert_history now u rtype st note d result d' :
  exec_stmt now (InsertHistory u rtype st note) d = Ok result d' ->
  exists t,
    rotation_history_tbl d = Some t /\
    rotation_history_tbl d'
      = Some (mkTable (rows t ++ [mkHistoryRow (serial t) u now rtype st note])
                      (S (serial t))).
Proof.
  cbn [exec_stmt]. destruct (rotation_history_tbl d) as [t|]; [|discriminate].
  intros H. repeat case_match; simplify_eq. eauto.
Qed.

Lemma length_append (s t : string) :
  String.length (s +:+ t) = (String.length s + String.length t)%nat.
Proof. induction s as [|c s IH]; simpl; [done | by rewrite IH]. Qed.

(** The shadow name never coincides with the principal's. *)
Lemma append_suffix_ne (s : string) : s +:+ "_new" <> s.
Proof.
  intros H. apply (f_equal String.length) in H.
  rewrite length_append in H. simpl in H. lia.
Qed.

(** From here on the requests are used through their case lemmas only. *)
Opaque cursor_execute psycopg2_connect generate_strong_password str_datetime.

Ltac exec_generate :=
  match goal with
  | |- context [generate_strong_password ?d ?l ?w] =>
      let pw := fresh "new_password" in
      let k := fresh "k" in
      let Hk := fresh "Hk" in
      let Hgen := fresh "Hgen" in
      let Hmeets := fresh "Hmeets" in
      let Hlen := fresh "Hlen" in
      destruct (generate_strong_password_cases d l w)
        as [(pw & k & Hk & Hgen & Hmeets & Hlen) | Hgen];
      rewrite Hgen; clear Hgen; world_norm
  end.

Ltac sent_simpl :=
  unfold sent in *; world_simpl;
  rewrite <- ?app_assoc in *; rewrite ?drop_app_length in *;
  try match goal with
      | |- context [drop (List.length ?l) ?l] =>
          replace (drop (List.length l) l) with (@nil (request * bool))
            by (symmetry; apply drop_all)
      end;
  try match goal with
      | H : context [drop (List.length ?l) ?l] |- _ =>
          replace (drop (List.length l) l) with (@nil (request * bool)) in H
            by (symmetry; apply drop_all)
      end.

(** ** [rotate_password] *)

(** C6. When the [ALTER USER] of a single rotation fails, the method returns
    [False], the failed statement is the only request it has sent (no
    connection is opened to verify the new password), and the database is
    what it was: the principal keeps its credential. *)
Theorem rotate_password_alter_failure depth username simulate w new_password :
  In (Execute (AlterUserPassword username new_password), false)
     (sent w (snd (rotate_password depth username simulate w))) ->
  fst (rotate_password depth username simulate w) = Ret false /\
  sent w (snd (rotate_password depth username simulate w))
    = [(Execute (AlterUserPassword username new_password), false)] /\
  db (snd (rotate_password depth username simulate w)) = db w /\
  rotation_history (snd (rotate_password depth username simulate w))
    = rotation_history w.
Proof.
  destruct w. unfold rotate_password. unfold_method.
  exec_generate; [|sent_simpl; intros []].
  exec_request.
  - sent_simpl. intros [Hin | []]. by simplify_eq.
  - destruct simulate; cbv beta iota.
    + exec_request.
      * sent_simpl. intros Hin. cbn in Hin. by destruct_or?; simplify_eq.
      * exec_request; sent_simpl; intros Hin; cbn in Hin;
          by destruct_or?; simplify_eq.
    + exec_request; sent_simpl; intros Hin; cbn in Hin;
        by destruct_or?; simplify_eq.
Qed.

(** What a successful rotation adds to the audit table: one row, for this
    principal, of the given type, with status [success]. *)
Definition appends_success (rtype username : string) (w w' : World) : Prop :=
  exists row,
    audit w' = (audit w ++ [row])%list /\
    h_username row = username /\ rotation_type row = rtype /\
    status row = "success" /\ rotation_date row = clock w'.

(** Turn what is known about the executed statements into equations on the
    audit table. *)
Ltac frame_history :=
  repeat match goal with
    | H : exec_stmt _ (InsertHistory _ _ _ _) _ = Ok _ _ |- _ =>
        let t := fresh "t" in
        let Ht := fresh "Ht" in
        let Ht' := fresh "Ht'" in
        apply exec_insert_history in H as (t & Ht & Ht')
    | H : exec_stmt _ _ _ = Ok _ _ |- _ =>
        apply exec_stmt_history_frame in H; [| by intros | done]
    end;
  world_simpl.

(** The audit table is the same in two worlds of one run. *)
Ltac audit_unchanged :=
  unfold audit; world_simpl;
  first
    [ reflexivity
    | match goal with
      | |- match ?a with Some _ => _ | None => _ end
           = match ?b with Some _ => _ | None => _ end =>
          by replace a with b by congruence
      end ].

(** The audit table has gained the row of the last statement. *)
Ltac audit_extended :=
  unfold audit; world_simpl;
  match goal with
  | Ht : rotation_history_tbl ?d = Some ?t,
    Ht' : rotation_history_tbl ?d' = Some (mkTable (rows ?t ++ _) _) |- _ =>
      rewrite Ht';
      repeat match goal with
        | |- context [rotation_history_tbl ?x] =>
            replace (rotation_history_tbl x) with (Some t) by congruence
        end
  end.

Lemma rotate_password_audit depth username simulate w :
  let r := rotate_password depth username simulate w in
  (fst r = Ret true /\
   appends_success "password_rotation" username w (snd r) /\
   rotation_history (snd r)
     = (rotation_history w ++ [mkEntry username (clock (snd r)) "success"])%list) \/
  (fst r <> Ret true /\
   audit (snd r) = audit w /\ rotation_history (snd r) = rotation_history w).
Proof.
  destruct w. cbv zeta. unfold rotate_password. unfold_method.
  exec_generate; [|right; by repeat split].
  exec_request; [right; by repeat split|].
  destruct simulate; cbv beta iota.
  - exec_request; [right; frame_history; repeat split; [done | audit_unchanged]|].
    exec_request.
    + right. frame_history. repeat split; [done | audit_unchanged].
    + left. frame_history. repeat split.
      eexists. split; [audit_extended; reflexivity | done].
  - exec_request.
    + right. frame_history. repeat split; [done | audit_unchanged].
    + left. frame_history. repeat split.
      eexists. split; [audit_extended; reflexivity | done].
Qed.

(** ** [rotate_with_dual_password] *)

Lemma rotate_with_dual_password_audit depth username w :
  let r := rotate_with_dual_password depth username w in
  (fst r = Ret true /\
   appends_success "dual_password_rotation" username w (snd r) /\
   rotation_history (snd r) = rotation_history w) \/
  (fst r <> Ret true /\
   audit (snd r) = audit w /\ rotation_history (snd r) = rotation_history w).
Proof.
  destruct w. cbv zeta. unfold rotate_with_dual_password. unfold_method.
  exec_generate; [|right; by repeat split].
  repeat (exec_request;
          [right; frame_history; repeat split; first [done | audit_unchanged]|]).
  left. frame_history. repeat split.
  eexists. split; [audit_extended; reflexivity | done].
Qed.

(** Turn what is known about the executed statements into equations on the
    role [x]. *)
Ltac frame_roles x :=
  repeat match goal with
    | H : exec_stmt _ _ _ = Ok _ _ |- _ =>
        apply (fun H' => exec_stmt_roles_frame _ _ _ _ _ x H') in H;
        [| cbn [targets In]; intros [Heq | []]; by apply append_suffix_ne in Heq ]
    end;
  world_simpl.

Ltac split_in H := cbn [In app] in H; destruct_or?; simplify_eq.

(** C8. When a statement of the block that creates the shadow principal
    (drop-if-exists, create, the three grants) fails, the dual rotation
    returns [False], the original principal's role is exactly what it was,
    and none of the retirement statements (revoke, drop, rename) has been
    sent. *)
Theorem dual_shadow_failure_clean depth username w s :
  In (Execute s, false) (sent w (snd (rotate_with_dual_password depth username w))) ->
  shadow_step s = true ->
  fst (rotate_with_dual_password depth username w) = Ret false /\
  roles (db (snd (rotate_with_dual_password depth username w))) !! username
    = roles (db w) !! username /\
  forall s' ok,
    In (Execute s', ok) (sent w (snd (rotate_with_dual_password depth username w))) ->
    retirement_step s' = false.
Proof.
  destruct w. unfold rotate_with_dual_password. unfold_method.
  exec_generate; [|sent_simpl; intros []].
  do 5 (exec_request;
        [ sent_simpl; intros _ _; frame_roles username;
          split; [reflexivity|];
          split; [congruence | intros s' ok Hin; by split_in Hin] |]).
  repeat (exec_request; [sent_simpl; intros Hin Hs; by split_in Hin|]).
  sent_simpl. intros Hin Hs. by split_in Hin.
Qed.

(** C4, amended.  When a retirement statement (one of the three revokes, the
    drop, the rename) fails, the exception leaves
    [rotate_with_dual_password]: nothing is returned, no audit record is
    written, the failed statement is the last request sent, and the cursor
    stays open. *)
Theorem dual_retirement_failure_escapes depth username w s :
  In (Execute s, false) (sent w (snd (rotate_with_dual_password depth username w))) ->
  retirement_step s = true ->
  (exists e, fst (rotate_with_dual_password depth username w) = Raise e) /\
  audit (snd (rotate_with_dual_password depth username w)) = audit w /\
  rotation_history (snd (rotate_with_dual_password depth username w))
    = rotation_history w /\
  last (sent w (snd (rotate_with_dual_password depth username w)))
    = Some (Execute s, false) /\
  open_cursors (snd (rotate_with_dual_password depth username w))
    = S (open_cursors w).
Proof.
  destruct w. unfold rotate_with_dual_password. unfold_method.
  exec_generate; [|sent_simpl; intros []].
  do 5 (exec_request; [sent_simpl; intros Hin Hs; by split_in Hin|]).
  do 5 (exec_request;
        [ sent_simpl; intros Hin Hs; split_in Hin; frame_history;
          (split; [by eexists|]; split; [audit_unchanged|]; by repeat split) |]).
  exec_request; sent_simpl; intros Hin Hs; by split_in Hin.
Qed.

(** C4, as stated, fails.  After [setup] and [create_app_user('svc_b', ...)],
    a server failure on the first revoke of the dual rotation raises out of
    the method; the audit table stays empty, and the revoked-nothing original
    and the shadow both exist. *)
Lemma dual_retirement_failure_unrecorded :
  let w := run (create_app_user "svc_b" "InitialPass123!")
             (run setup (blank_world 1000 (fun n => 17 * n)%nat (fault_at 11))) in
  let r := rotate_with_dual_password 1 "svc_b" w in
  fst r = Raise (DatabaseError "server closed the connection unexpectedly") /\
  last (trace (snd r)) = Some (Execute (RevokeTables "svc_b"), false) /\
  audit w = [] /\ audit (snd r) = [] /\
  ~ (exists row, audit (snd r) = (audit w ++ [row])%list) /\
  roles (db (snd r)) !! "svc_b" = Some (mkRole "InitialPass123!" true true true) /\
  roles (db (snd r)) !! "svc_b_new"
    = Some (mkRole "arIZ&pGX%nEV#lCT!jAR8hyP6fwN4duL" true true true).
Proof.
  cbv zeta. repeat split; try (vm_compute; reflexivity).
  intros [row Hrow]. vm_compute in Hrow. discriminate.
Qed.

Lemma dual_retirement_failure_escapes_witness :
  let w := run (create_app_user "svc_b" "InitialPass123!")
             (run setup (blank_world 1000 (fun n => 17 * n)%nat (fault_at 11))) in
  let r := rotate_with_dual_password 1 "svc_b" w in
  (exists e, fst r = Raise e) /\
  audit (snd r) = audit w /\
  rotation_history (snd r) = rotation_history w /\
  last (sent w (snd r)) = Some (Execute (RevokeTables "svc_b"), false) /\
  open_cursors (snd r) = S (open_cursors w).
Proof.
  cbv zeta.
  apply (dual_retirement_failure_escapes 1 "svc_b" _ (RevokeTables "svc_b")).
  - vm_compute. do 5 right. left. reflexivity.
  - reflexivity.
Defined.

Lemma dual_shadow_failure_clean_witness :
  let w := run (create_app_user "svc_b" "InitialPass123!")
             (run setup (blank_world 1000 (fun n => 17 * n)%nat (fault_at 7))) in
  let r := rotate_with_dual_password 1 "svc_b" w in
  fst r = Ret false /\
  roles (db (snd r)) !! "svc_b" = roles (db w) !! "svc_b" /\
  forall s' ok, In (Execute s', ok) (sent w (snd r)) -> retirement_step s' = false.
Proof.
  cbv zeta.
  apply (dual_shadow_failure_clean 1 "svc_b" _
           (CreateUser "svc_b_new" "arIZ&pGX%nEV#lCT!jAR8hyP6fwN4duL")).
  - vm_compute. right. left. reflexivity.
  - reflexivity.
Defined.

Lemma rotate_password_alter_failure_witness :
  let w := run setup (blank_world 1000 (fun n => 17 * n)%nat no_faults) in
  let r := rotate_password 1 "svc_a" true w in
  fst r = Ret false /\
  sent w (snd r)
    = [(Execute (AlterUserPassword "svc_a" "arIZ&pGX%nEV#lCT!jAR8hyP6fwN4duL"), false)] /\
  db (snd r) = db w /\
  rotation_history (snd r) = rotation_history w.
Proof.
  cbv zeta.
  apply (rotate_password_alter_failure 1 "svc_a" true _
           "arIZ&pGX%nEV#lCT!jAR8hyP6fwN4duL").
  vm_compute. left. reflexivity.
Defined.

(** ** The audit trail *)

(** C1, as stated, fails.  The principal exists, the server fails the
    [ALTER USER]: [rotate_password] returns [False] and appends nothing, to
    the table or to [self.rotation_history]; no record with status [failed]
    exists. *)
Lemma failed_rotation_leaves_no_record :
  let w := run (create_app_user "svc_a" "InitialPass123!")
             (run setup (blank_world 1000 (fun n => 17 * n)%nat (fault_at 6))) in
  let r := rotate_password 1 "svc_a" true w in
  fst r = Ret false /\
  last (trace (snd r))
    = Some (Execute (AlterUserPassword "svc_a" "arIZ&pGX%nEV#lCT!jAR8hyP6fwN4duL"),
            false) /\
  audit w = [] /\ audit (snd r) = [] /\ rotation_history (snd r) = [] /\
  ~ (exists row, audit (snd r) = (audit w ++ [row])%list).
Proof.
  cbv zeta. repeat split; try (vm_compute; reflexivity).
  intros [row Hrow]. vm_compute in Hrow. discriminate.
Qed.

(** C1, amended.  A rotation, single or dual, that returns [True] has
    appended exactly one record to the audit table, for its principal, of
    its type and with status [success] (the single rotation also appends one
    entry to [self.rotation_history]); a rotation that ends in any other way
    (it returns [False] or raises) has appended nothing. *)
Theorem rotation_audit_records depth username simulate w :
  (let r := rotate_password depth username simulate w in
   (fst r = Ret true /\
    appends_success "password_rotation" username w (snd r) /\
    rotation_history (snd r)
      = (rotation_history w ++ [mkEntry username (clock (snd r)) "success"])%list) \/
   (fst r <> Ret true /\
    audit (snd r) = audit w /\ rotation_history (snd r) = rotation_history w)) /\
  (let r := rotate_with_dual_password depth username w in
   (fst r = Ret true /\
    appends_success "dual_password_rotation" username w (snd r) /\
    rotation_history (snd r) = rotation_history w) \/
   (fst r <> Ret true /\
    audit (snd r) = audit w /\ rotation_history (snd r) = rotation_history w)).
Proof.
  split.
  - apply rotate_password_audit.
  - apply rotate_with_dual_password_audit.
Qed.

(** ** The secret does not reach the records *)

(** Two databases that differ in role passwords only. *)
Definition role_shape (r : role) : bool * bool * bool :=
  (db_connect r, schema_usage r, table_dml r).

Definition similar (d1 d2 : Database) : Prop :=
  (forall x, role_shape <$> (roles d1 !! x) = role_shape <$> (roles d2 !! x)) /\
  rotation_history_tbl d1 = rotation_history_tbl d2 /\
  app_credentials d1 = app_credentials d2.

(** Two worlds that differ in role passwords, in the passwords mentioned by
    the requests sent, and in the random stream. *)
Definition agree (w1 w2 : World) : Prop :=
  similar (db w1) (db w2) /\
  clock w1 = clock w2 /\
  faults w1 = faults w2 /\
  List.length (trace w1) = List.length (trace w2) /\
  open_cursors w1 = open_cursors w2 /\
  logs w1 = logs w2 /\
  rotation_history w1 = rotation_history w2.

(** A statement with its password blanked. *)
Definition stmt_shape (s : stmt) : stmt :=
  match s with
  | CreateUser u _ => CreateUser u EmptyString
  | AlterUserPassword u _ => AlterUserPassword u EmptyString
  | _ => s
  end.

(** [m1] and [m2] end alike from worlds related by [P]: both raise the
    same exception, or both return, values and worlds related by [Q]; in
    either case the final worlds [agree]. *)
Definition related {A} (P : World -> World -> Prop)
    (Q : A -> A -> World -> World -> Prop) (m1 m2 : M A) : Prop :=
  forall w1 w2, P w1 w2 ->
    agree (snd (m1 w1)) (snd (m2 w2)) /\
    match fst (m1 w1), fst (m2 w2) with
    | Ret a1, Ret a2 => Q a1 a2 (snd (m1 w1)) (snd (m2 w2))
    | Raise e1, Raise e2 => e1 = e2
    | _, _ => False
    end.

(** Worlds that agree and satisfy [I]; equal values in such worlds. *)
Definition inv (I : World -> World -> Prop) : World -> World -> Prop :=
  fun w1 w2 => agree w1 w2 /\ I w1 w2.

Definition post {A} (I : A -> World -> World -> Prop)
    : A -> A -> World -> World -> Prop :=
  fun a1 a2 w1 w2 => a1 = a2 /\ inv (I a1) w1 w2.

Definition top : World -> World -> Prop := fun _ _ => True.

(** A relation that looks at the databases and the random streams only. *)
Definition stable (I : World -> World -> Prop) : Prop :=
  forall w1 w2 w1' w2',
    db w1' = db w1 -> entropy w1' = entropy w1 -> drawn w1' = drawn w1 ->
    db w2' = db w2 -> entropy w2' = entropy w2 -> drawn w2' = drawn w2 ->
    I w1 w2 -> I w1' w2'.

Section RelationalRules.
Context {A B : Type}.
Implicit Types (P : World -> World -> Prop).

Lemma related_bind P (Q : A -> A -> World -> World -> Prop)
    (R : B -> B -> World -> World -> Prop) m1 m2 f1 f2 :
  related P Q m1 m2 ->
  (forall a1 a2, related (Q a1 a2) R (f1 a1) (f2 a2)) ->
  related P R (bind m1 f1) (bind m2 f2).
Proof.
  intros Hm Hf w1 w2 HP. destruct (Hm w1 w2 HP) as (Ha & Ho).
  unfold bind.
  destruct (m1 w1) as [[a1|e1] w1'], (m2 w2) as [[a2|e2] w2'];
    cbn [fst snd] in *; try done.
  by apply Hf.
Qed.

Lemma related_bind_eq P (I : A -> World -> World -> Prop)
    (R : B -> B -> World -> World -> Prop) m1 m2 f1 f2 :
  related P (post I) m1 m2 ->
  (forall a, related (inv (I a)) R (f1 a) (f2 a)) ->
  related P R (bind m1 f1) (bind m2 f2).
Proof.
  intros Hm Hf. eapply related_bind; [exact Hm|].
  intros a1 a2 w1 w2 [-> H]. by apply Hf.
Qed.

Lemma related_try P (Q : A -> A -> World -> World -> Prop) m1 m2 h1 h2 :
  related P Q m1 m2 ->
  (forall e, related (inv top) Q (h1 e) (h2 e)) ->
  related P Q (try_except m1 h1) (try_except m2 h2).
Proof.
  intros Hm Hh w1 w2 HP. destruct (Hm w1 w2 HP) as (Ha & Ho).
  unfold try_except.
  destruct (m1 w1) as [[a1|e1] w1'], (m2 w2) as [[a2|e2] w2'];
    cbn [fst snd] in *; try done.
  subst e2. by apply Hh.
Qed.

Lemma related_ret (a : A) (I : A -> World -> World -> Prop) :
  related (inv (I a)) (post I) (ret a) (ret a).
Proof.
  intros w1 w2 [Ha HI]. split; [exact Ha|].
  split; [reflexivity|]. by split.
Qed.

Lemma related_pre P P' (Q : A -> A -> World -> World -> Prop) m1 m2 :
  (forall w1 w2, P' w1 w2 -> P w1 w2) ->
  related P Q m1 m2 -> related P' Q m1 m2.
Proof. intros HP Hm w1 w2 H. by apply Hm, HP. Qed.

Lemma related_post P (Q Q' : A -> A -> World -> World -> Prop) m1 m2 :
  (forall a1 a2 w1 w2, agree w1 w2 -> Q a1 a2 w1 w2 -> Q' a1 a2 w1 w2) ->
  related P Q m1 m2 -> related P Q' m1 m2.
Proof.
  intros HQ Hm w1 w2 H. destruct (Hm w1 w2 H) as (Ha & Ho).
  split; [done|].
  destruct (fst (m1 w1)), (fst (m2 w2)); try done. by apply HQ.
Qed.
End RelationalRules.

Lemma related_pure {A} (phi : Prop) (P : World -> World -> Prop)
    (Q : A -> A -> World -> World -> Prop) m1 m2 :
  (phi -> related P Q m1 m2) ->
  related (fun w1 w2 => phi /\ P w1 w2) Q m1 m2.
Proof. intros H w1 w2 [Hphi HP]. by apply H. Qed.

Lemma stable_top : stable top.
Proof. done. Qed.

(** *** Steps that leave the database alone *)

Ltac quiet_step :=
  let HI := fresh in
  let Ha := fresh in
  let Hi := fresh in
  intros HI [] [] [Ha Hi]; unfold agree in *; cbn in *; destruct_and?;
  simplify_eq;
  split; [by split_and!|];
  split; [done|]; split; [by split_and!|];
  eapply HI; [..|exact Hi]; done.

Lemma related_logger I l msg :
  stable I -> related (inv I) (post (fun _ => I)) (logger l msg) (logger l msg).
Proof. quiet_step. Qed.

Lemma related_conn_cursor I :
  stable I -> related (inv I) (post (fun _ => I)) conn_cursor conn_cursor.
Proof. quiet_step. Qed.

Lemma related_cursor_close I :
  stable I -> related (inv I) (post (fun _ => I)) cursor_close cursor_close.
Proof. quiet_step. Qed.

Lemma related_time_sleep I secs :
  stable I -> related (inv I) (post (fun _ => I)) (time_sleep secs) (time_sleep secs).
Proof. quiet_step. Qed.

Lemma related_datetime_now I :
  stable I -> related (inv I) (post (fun _ => I)) datetime_now datetime_now.
Proof. quiet_step. Qed.

Lemma related_append I entry :
  stable I ->
  related (inv I) (post (fun _ => I))
    (fun w => (Ret tt, set_rotation_history (rotation_history w ++ [entry]) w))
    (fun w => (Ret tt, set_rotation_history (rotation_history w ++ [entry]) w)).
Proof. quiet_step. Qed.

(** *** Requests *)

Lemma similar_lookup d1 d2 u :
  similar d1 d2 ->
  match roles d1 !! u, roles d2 !! u with
  | Some r1, Some r2 => role_shape r1 = role_shape r2
  | None, None => True
  | _, _ => False
  end.
Proof.
  intros (Hr & _ & _). specialize (Hr u).
  destruct (roles d1 !! u), (roles d2 !! u); cbn in Hr; try done.
  congruence.
Qed.

Lemma has_privileges_shape r1 r2 :
  role_shape r1 = role_shape r2 -> has_privileges r1 = has_privileges r2.
Proof. unfold role_shape, has_privileges. by intros [= -> -> ->]. Qed.

Lemma similar_insert d1 d2 u r1 r2 :
  similar d1 d2 -> role_shape r1 = role_shape r2 ->
  similar (set_roles (<[u:=r1]> (roles d1)) d1) (set_roles (<[u:=r2]> (roles d2)) d2).
Proof.
  intros (Hr & Hh & Hc) Hs. split; [|done]. intros x. cbn.
  destruct (decide (u = x)) as [->|Hne].
  - rewrite !lookup_insert_eq. cbn. by rewrite Hs.
  - rewrite !lookup_insert_ne by done. apply Hr.
Qed.

Lemma similar_delete d1 d2 u :
  similar d1 d2 ->
  similar (set_roles (delete u (roles d1)) d1) (set_roles (delete u (roles d2)) d2).
Proof.
  intros (Hr & Hh & Hc). split; [|done]. intros x. cbn.
  destruct (decide (u = x)) as [->|Hne].
  - by rewrite !lookup_delete_eq.
  - rewrite !lookup_delete_ne by done. apply Hr.
Qed.

(** The server's answer to a statement does not depend on passwords. *)
Definition same_reply (r1 r2 : reply) : Prop :=
  match r1, r2 with
  | Ok res1 d1, Ok res2 d2 => res1 = res2 /\ similar d1 d2
  | Error m1, Error m2 => m1 = m2
  | _, _ => False
  end.

Lemma with_role_similar u f1 f2 d1 d2 :
  similar d1 d2 ->
  (forall r1 r2, role_shape r1 = role_shape r2 ->
                 role_shape (f1 r1) = role_shape (f2 r2)) ->
  same_reply (with_role u f1 d1) (with_role u f2 d2).
Proof.
  intros Hsim Hf. pose proof (similar_lookup d1 d2 u Hsim) as Hl.
  unfold with_role.
  destruct (roles d1 !! u) as [r1|], (roles d2 !! u) as [r2|]; try done.
  split; [done|]. apply similar_insert; [done | by apply Hf].
Qed.

Lemma exec_stmt_similar now s1 s2 d1 d2 :
  similar d1 d2 -> stmt_shape s1 = stmt_shape s2 ->
  same_reply (exec_stmt now s1 d1) (exec_stmt now s2 d2).
Proof.
  intros Hsim Hs.
  destruct s1, s2; cbn [stmt_shape] in Hs; simplify_eq; cbn [exec_stmt];
    try (apply with_role_similar; [done|];
         unfold role_shape; cbn; intros ? ? [= ? ? ?]; congruence).
  - (* CREATE TABLE *)
    destruct Hsim as (Hr & -> & ->). by repeat split.
  - (* DROP USER IF EXISTS *)
    pose proof (similar_lookup d1 d2 u0 Hsim) as Hl.
    destruct (roles d1 !! u0) as [r1|], (roles d2 !! u0) as [r2|]; try done.
    rewrite (has_privileges_shape r1 r2 Hl).
    destruct (has_privileges r2); [done|]. split; [done|]. by apply similar_delete.
  - (* CREATE USER *)
    pose proof (similar_lookup d1 d2 u0 Hsim) as Hl.
    destruct (roles d1 !! u0) as [r1|], (roles d2 !! u0) as [r2|]; try done.
    split; [done|]. by apply similar_insert.
  - (* DROP USER *)
    pose proof (similar_lookup d1 d2 u0 Hsim) as Hl.
    destruct (roles d1 !! u0) as [r1|], (roles d2 !! u0) as [r2|]; try done.
    rewrite (has_privileges_shape r1 r2 Hl).
    destruct (has_privileges r2); [done|]. split; [done|]. by apply similar_delete.
  - (* RENAME *)
    pose proof (similar_lookup d1 d2 old0 Hsim) as Hold.
    pose proof (similar_lookup d1 d2 new0 Hsim) as Hnew.
    destruct (roles d1 !! old0) as [r1|], (roles d2 !! old0) as [r2|]; try done.
    destruct (roles d1 !! new0), (roles d2 !! new0); try done.
    split; [done|].
    apply (similar_insert (set_roles _ d1) (set_roles _ d2)); [|done].
    by apply similar_delete.
  - (* INSERT INTO rotation_history *)
    destruct Hsim as (Hr & Hh & Hc). rewrite Hh.
    destruct (rotation_history_tbl d2); [|done].
    repeat case_match; try done; by repeat split.
  - (* INSERT INTO app_credentials *)
    destruct Hsim as (Hr & Hh & Hc). rewrite Hc.
    destruct (app_credentials d2); [|done].
    repeat case_match; try done; by repeat split.
  - (* SELECT *)
    destruct Hsim as (Hr & Hh & Hc). rewrite Hc.
    destruct (app_credentials d2) eqn:Hd2; [|done].
    split; [done|]. split; [done|]. split; congruence.
Qed.

Transparent cursor_execute psycopg2_connect.

Lemma agree_send w1 w2 r1 r2 ok :
  agree w1 w2 -> agree (send r1 ok w1) (send r2 ok w2).
Proof.
  unfold agree. destruct w1, w2; cbn. intros (? & ? & ? & Hlen & ? & ? & ?).
  split_and!; try done. by rewrite !length_app, Hlen.
Qed.

Lemma agree_set_db w1 w2 d1 d2 :
  agree w1 w2 -> similar d1 d2 -> agree (set_db d1 w1) (set_db d2 w2).
Proof.
  unfold agree. destruct w1, w2; cbn. intros (? & ? & ? & ? & ? & ? & ?) ?.
  by split_and!.
Qed.

(** Sending statements of one shape to agreeing worlds: the same outcome,
    and worlds that agree. *)
Lemma related_execute s1 s2 :
  stmt_shape s1 = stmt_shape s2 ->
  related (inv top) (post (fun _ => top)) (cursor_execute s1) (cursor_execute s2).
Proof.
  intros Hs w1 w2 [Ha _]. unfold cursor_execute, faulty.
  pose proof Ha as (Hsim & Hc & Hf & Hl & _).
  rewrite Hf, Hl, Hc.
  destruct (faults w2 (List.length (trace w2))).
  { split; [by apply agree_send | done]. }
  pose proof (exec_stmt_similar (clock w2) s1 s2 (db w1) (db w2) Hsim Hs) as Hr.
  destruct (exec_stmt (clock w2) s1 (db w1)) as [res1 d1|m1],
           (exec_stmt (clock w2) s2 (db w2)) as [res2 d2|m2]; try done; cbn [fst snd].
  - destruct Hr as [-> Hd].
    assert (agree (set_db d1 (send (Execute s1) true w1))
                  (set_db d2 (send (Execute s2) true w2))) as Hag
      by (apply agree_set_db; [by apply agree_send | done]).
    split; [done|]. split; [done|]. by split.
  - cbn in Hr. subst m2. split; [by apply agree_send | done].
Qed.

(** After [ALTER USER u WITH PASSWORD pw] went through on both sides, [u]
    has the password each side has set. *)
Definition verified (u pw1 pw2 : string) : World -> World -> Prop :=
  fun w1 w2 =>
    exists r1 r2,
      roles (db w1) !! u = Some r1 /\ rolpassword r1 = pw1 /\
      roles (db w2) !! u = Some r2 /\ rolpassword r2 = pw2.

Lemma stable_verified u pw1 pw2 : stable (verified u pw1 pw2).
Proof.
  intros w1 w2 w1' w2' H1 _ _ H2 _ _. unfold verified. by rewrite H1, H2.
Qed.

Lemma exec_alter_sets now u pw d result d' :
  exec_stmt now (AlterUserPassword u pw) d = Ok result d' ->
  exists r, roles d' !! u = Some r /\ rolpassword r = pw.
Proof.
  cbn [exec_stmt]. unfold with_role. destruct (roles d !! u); [|done].
  intros [= _ <-]. eexists. split; [apply lookup_insert_eq | done].
Qed.

Lemma related_alter u pw1 pw2 :
  related (inv top) (post (fun _ => verified u pw1 pw2))
    (cursor_execute (AlterUserPassword u pw1))
    (cursor_execute (AlterUserPassword u pw2)).
Proof.
  intros w1 w2 H.
  destruct (related_execute (AlterUserPassword u pw1) (AlterUserPassword u pw2)
              eq_refl w1 w2 H) as (Hag & Hout).
  split; [done|].
  destruct (cursor_execute_cases (AlterUserPassword u pw1) w1)
    as [(e1 & _ & E1) | (res1 & d1 & _ & X1 & E1)];
  destruct (cursor_execute_cases (AlterUserPassword u pw2) w2)
    as [(e2 & _ & E2) | (res2 & d2 & _ & X2 & E2)];
    rewrite E1, E2 in *; cbn [fst snd] in *; try done.
  destruct Hout as (-> & Hag' & _). split; [done|]. split; [done|].
  apply exec_alter_sets in X1 as (r1 & Hr1 & Hp1).
  apply exec_alter_sets in X2 as (r2 & Hr2 & Hp2).
  by exists r1, r2.
Qed.

(** The verification connects with the password just set on each side. *)
Lemma related_connect u pw1 pw2 :
  related (inv (verified u pw1 pw2)) (post (fun _ => verified u pw1 pw2))
    (psycopg2_connect u pw1) (psycopg2_connect u pw2).
Proof.
  intros w1 w2 [Ha (r1 & r2 & Hr1 & Hp1 & Hr2 & Hp2)].
  unfold psycopg2_connect, faulty.
  pose proof Ha as (Hsim & Hc & Hf & Hl & _).
  rewrite Hf, Hl, Hr1, Hr2.
  destruct (faults w2 (List.length (trace w2))).
  { split; [by apply agree_send | done]. }
  rewrite !decide_True by done. cbn [fst snd].
  assert (agree (send (Connect u pw1) true w1) (send (Connect u pw2) true w2))
    by by apply agree_send.
  split; [done|]. split; [done|]. split; [done|].
  by exists r1, r2.
Qed.

Opaque cursor_execute psycopg2_connect.

(** Both generators return, with [pw1] and [pw2]. *)
Definition generates (depth : nat) (pw1 pw2 : string) : World -> World -> Prop :=
  fun w1 w2 =>
    fst (generate_strong_password depth 32 w1) = Ret pw1 /\
    fst (generate_strong_password depth 32 w2) = Ret pw2.

Lemma stable_generates depth pw1 pw2 : stable (generates depth pw1 pw2).
Proof.
  intros w1 w2 w1' w2' _ He1 Hd1 _ He2 Hd2 [H1 H2]. split.
  - by rewrite (generate_strong_password_frame depth 32 w1' w1).
  - by rewrite (generate_strong_password_frame depth 32 w2' w2).
Qed.

Lemma related_generate depth pw1 pw2 :
  related (inv (generates depth pw1 pw2))
    (fun a1 a2 w1 w2 => (a1 = pw1 /\ a2 = pw2) /\ inv top w1 w2)
    (generate_strong_password depth 32) (generate_strong_password depth 32).
Proof.
  intros w1 w2 [Ha [H1 H2]].
  destruct (generate_strong_password_cases depth 32 w1)
    as [(p1 & k1 & _ & E1 & _) | E1];
  destruct (generate_strong_password_cases depth 32 w2)
    as [(p2 & k2 & _ & E2 & _) | E2];
    rewrite E1, E2 in *; cbn [fst snd] in *; simplify_eq.
  assert (agree (set_drawn (drawn w1 + S k1 * Z.to_nat 32) w1)
                (set_drawn (drawn w2 + S k2 * Z.to_nat 32) w2)) as Hag.
  { unfold agree in *. by destruct w1, w2. }
  split; [done|]. split; [done|]. by split.
Qed.

(** *** The two rotations *)

Ltac stable_tac :=
  first [apply stable_top | apply stable_verified | apply stable_generates].

(** One step that leaves the database alone, under the invariant [I]. *)
Ltac quiet I :=
  eapply related_bind_eq;
  [ first [ apply (related_logger I) | apply (related_conn_cursor I)
          | apply (related_cursor_close I) | apply (related_time_sleep I)
          | apply (related_datetime_now I) | apply (related_append I) ];
    stable_tac
  | intros ? ].

(** One statement, of the same shape on both sides. *)
Ltac request :=
  eapply related_bind_eq; [apply related_execute; reflexivity | intros ?].

(** What is known when a [try] block has been left: after a [return] in the
    handler nothing more than agreement, otherwise [I]. *)
Definition unless_returned (I : World -> World -> Prop)
    : option bool -> World -> World -> Prop :=
  fun returned => match returned with Some _ => top | None => I end.

Lemma rotate_password_related depth username simulate pw1 pw2 :
  related (inv (generates depth pw1 pw2)) (post (fun _ => top))
    (rotate_password depth username simulate)
    (rotate_password depth username simulate).
Proof.
  unfold rotate_password.
  quiet (generates depth pw1 pw2). quiet (generates depth pw1 pw2).
  eapply related_bind; [apply related_generate|].
  intros a1 a2. apply related_pure. intros [-> ->].
  quiet top.
  eapply (related_bind_eq _ (unless_returned (verified username pw1 pw2))).
  { apply related_try.
    - eapply related_bind_eq; [apply related_alter | intros ?].
      quiet (verified username pw1 pw2).
      apply (related_ret None (unless_returned (verified username pw1 pw2))).
    - intros e. quiet top. quiet top.
      apply (related_ret (Some false) (unless_returned (verified username pw1 pw2))). }
  intros [v|]; [apply (related_ret v (fun _ => top))|].
  eapply (related_bind_eq _ (unless_returned (verified username pw1 pw2))).
  { destruct simulate.
    - quiet (verified username pw1 pw2). quiet (verified username pw1 pw2).
      apply related_try.
      + eapply related_bind_eq; [apply related_connect | intros ?].
        quiet (verified username pw1 pw2).
        apply (related_ret None (unless_returned (verified username pw1 pw2))).
      + intros e. quiet top. quiet top.
        apply (related_ret (Some false)
                 (unless_returned (verified username pw1 pw2))).
    - apply (related_ret None (unless_returned (verified username pw1 pw2))). }
  intros [v|]; [apply (related_ret v (fun _ => top))|].
  apply (related_pre (inv top)); [intros w1 w2 [Ha Hv]; by split|].
  quiet top. request. quiet top. quiet top. quiet top. quiet top.
  apply (related_ret true (fun _ => top)).
Qed.

Lemma rotate_with_dual_password_related depth username pw1 pw2 :
  related (inv (generates depth pw1 pw2)) (post (fun _ => top))
    (rotate_with_dual_password depth username)
    (rotate_with_dual_password depth username).
Proof.
  unfold rotate_with_dual_password. cbv zeta.
  quiet (generates depth pw1 pw2). quiet (generates depth pw1 pw2).
  eapply related_bind; [apply related_generate|].
  intros a1 a2. apply related_pure. intros [-> ->].
  eapply (related_bind_eq _ (fun _ => top)).
  { apply related_try.
    - do 5 request. quiet top. apply (related_ret None (fun _ => top)).
    - intros e. quiet top. quiet top.
      apply (related_ret (Some false) (fun _ => top)). }
  intros [v|]; [apply (related_ret v (fun _ => top))|].
  quiet top. quiet top. quiet top. quiet top.
  do 6 request. quiet top. quiet top.
  apply (related_ret true (fun _ => top)).
Qed.

(** The same world with another random stream. *)
Definition with_entropy (e : nat -> nat) (n : nat) (w : World) : World :=
  mkWorld (db w) (clock w) e n (faults w) (trace w) (open_cursors w) (logs w)
          (rotation_history w).

Lemma agree_with_entropy e1 n1 e2 n2 w :
  agree (with_entropy e1 n1 w) (with_entropy e2 n2 w).
Proof. unfold agree, similar. by split_and!. Qed.

Lemma agree_audit w1 w2 : agree w1 w2 -> audit w1 = audit w2.
Proof. intros ((_ & Hh & _) & _). unfold audit. by rewrite Hh. Qed.

(** Two runs that end [related] leave the same records. *)
Lemma related_same_records {A} (m : M A) (P : World -> World -> Prop) w1 w2 :
  related P (post (fun _ => top)) m m -> P w1 w2 ->
  fst (m w1) = fst (m w2) /\
  audit (snd (m w1)) = audit (snd (m w2)) /\
  rotation_history (snd (m w1)) = rotation_history (snd (m w2)) /\
  logs (snd (m w1)) = logs (snd (m w2)).
Proof.
  intros Hrel HP. destruct (Hrel w1 w2 HP) as (Hag & Hout). split.
  - destruct (fst (m w1)), (fst (m w2)); try done.
    + by destruct Hout as [-> _].
    + by subst.
  - split; [by apply agree_audit|].
    by destruct Hag as (_ & _ & _ & _ & _ & ? & ?).
Qed.

(** C9. Two rotations of one principal, single or dual, started in the same
    state and differing only in the secret generated for them, end in the
    same way and leave the same audit table, the same
    [self.rotation_history] and the same log: nothing recorded depends on
    the secret. *)
Theorem records_independent_of_secret depth username simulate w e1 n1 e2 n2 pw1 pw2 :
  fst (generate_strong_password depth 32 (with_entropy e1 n1 w)) = Ret pw1 ->
  fst (generate_strong_password depth 32 (with_entropy e2 n2 w)) = Ret pw2 ->
  (let a := rotate_password depth username simulate (with_entropy e1 n1 w) in
   let b := rotate_password depth username simulate (with_entropy e2 n2 w) in
   fst a = fst b /\ audit (snd a) = audit (snd b) /\
   rotation_history (snd a) = rotation_history (snd b) /\
   logs (snd a) = logs (snd b)) /\
  (let a := rotate_with_dual_password depth username (with_entropy e1 n1 w) in
   let b := rotate_with_dual_password depth username (with_entropy e2 n2 w) in
   fst a = fst b /\ audit (snd a) = audit (snd b) /\
   rotation_history (snd a) = rotation_history (snd b) /\
   logs (snd a) = logs (snd b)).
Proof.
  intros H1 H2.
  assert (inv (generates depth pw1 pw2)
            (with_entropy e1 n1 w) (with_entropy e2 n2 w)) as Hinv
    by (split; [apply agree_with_entropy | by split]).
  split; cbv zeta.
  - by apply (related_same_records _ _ _ _
                (rotate_password_related depth username simulate pw1 pw2)).
  - by apply (related_same_records _ _ _ _
                (rotate_with_dual_password_related depth username pw1 pw2)).
Qed.

Lemma records_independent_of_secret_witness :
  let w := run (create_app_user "svc_a" "InitialPass123!")
             (run setup (blank_world 1000 (fun n => n) no_faults)) in
  let e1 := (fun n => 17 * n)%nat in
  let e2 := (fun n => 23 * n + 5)%nat in
  fst (generate_strong_password 3 32 (with_entropy e1 0 w))
    = Ret "arIZ&pGX%nEV#lCT!jAR8hyP6fwN4duL" /\
  fst (generate_strong_password 3 32 (with_entropy e2 0 w))
    = Ret "P#rO@qN!pM9oL8nK7mJ6lI5kH4jG3iF2" /\
  audit (snd (rotate_password 3 "svc_a" true (with_entropy e1 0 w)))
    = audit (snd (rotate_password 3 "svc_a" true (with_entropy e2 0 w))) /\
  logs (snd (rotate_with_dual_password 3 "svc_a" (with_entropy e1 0 w)))
    = logs (snd (rotate_with_dual_password 3 "svc_a" (with_entropy e2 0 w))).
Proof.
  intros w e1 e2.
  assert (fst (generate_strong_password 3 32 (with_entropy e1 0 w))
            = Ret "arIZ&pGX%nEV#lCT!jAR8hyP6fwN4duL") as H1
    by (vm_compute; reflexivity).
  assert (fst (generate_strong_password 3 32 (with_entropy e2 0 w))
            = Ret "P#rO@qN!pM9oL8nK7mJ6lI5kH4jG3iF2") as H2
    by (vm_compute; reflexivity).
  pose proof (records_independent_of_secret 3 "svc_a" true w e1 0%nat e2 0%nat
                _ _ H1 H2) as [(_ & Ha & _) (_ & _ & _ & Hl)].
  exact (conj H1 (conj H2 (conj Ha Hl))).
Defined.

(** * Further properties of the methods *)

(** ** Secret generator: shape and cost *)

Lemma get_In n s c : String.get n s = Some c -> In c (chars s).
Proof.
  revert n. induction s as [|d s IH]; intros n; simpl; [discriminate|].
  destruct n as [|n]; [intros [= ->]; by left | intros H; right; eauto].
Qed.

Lemma secrets_choice_In seq w c w' :
  secrets_choice seq w = (Ret c, w') -> In c (chars seq).
Proof.
  unfold secrets_choice. destruct (String.length seq); [discriminate|].
  destruct (String.get _ seq) eqn:Hget; [|discriminate].
  intros [= <- _]. eauto using get_In.
Qed.

Lemma sample_alphabet n w p w' :
  sample n w = (Ret p, w') -> forall c, In c (chars p) -> In c (chars alphabet).
Proof.
  revert w p w'. induction n as [|n IH]; intros w p w'; cbn [sample]; unfold bind, ret.
  - intros [= <- _] c [].
  - destruct (secrets_choice alphabet w) as [[c|e] w1] eqn:Hc; [|discriminate].
    destruct (sample n w1) as [[rest|e] w2] eqn:Hrest; [|discriminate].
    intros [= <- _] x [<- | Hx]; [eauto using secrets_choice_In | eauto].
Qed.

Transparent generate_strong_password.

Lemma generate_strong_password_sampled depth length w password w' :
  generate_strong_password depth length w = (Ret password, w') ->
  exists w0 w1, sample (Z.to_nat length) w0 = (Ret password, w1).
Proof.
  revert w. induction depth as [|depth IH]; intros w; cbn [generate_strong_password];
    [discriminate|].
  unfold bind. destruct (sample (Z.to_nat length) w) as [[p|e] w1] eqn:Hs; [|discriminate].
  destruct (meets_requirements p); [|by eauto].
  intros [= <- _]. eauto.
Qed.

(** X1. A value returned by [generate_strong_password] has exactly the
    requested number of characters, the request was for at least four, and
    every character comes from the alphabet (letters, digits and the eight
    symbols). *)
Theorem generated_password_shape depth length w password w' :
  generate_strong_password depth length w = (Ret password, w') ->
  Z.of_nat (String.length password) = length /\
  4 <= length /\
  forall c, In c (chars password) -> In c (chars alphabet).
Proof.
  intros Hgen.
  destruct (generate_strong_password_cases depth length w)
    as [(p & k & _ & Hp & Hm & Hl) | Hraise]; [|congruence].
  rewrite Hp in Hgen. injection Hgen as <- _.
  apply meets_requirements_length in Hm.
  split; [lia|]. split; [lia|].
  destruct (generate_strong_password_sampled depth length w p _ Hp) as (w0 & w1 & Hs).
  eauto using sample_alphabet.
Qed.

Lemma generated_password_shape_witness :
  let w := blank_world 0 (fun n => 17 * n)%nat no_faults in
  Z.of_nat (String.length "arIZ&pGX%nEV#lCT!jAR8hyP6fwN4duL") = 32 /\
  4 <= 32 /\
  forall c, In c (chars "arIZ&pGX%nEV#lCT!jAR8hyP6fwN4duL") -> In c (chars alphabet).
Proof.
  intros w.
  apply (generated_password_shape 1 32 w _ (set_drawn 32 w)).
  reflexivity.
Defined.

(** X2. A run of [generate_strong_password] changes nothing but the position
    in the random stream: it draws [length] characters for each attempt, makes
    at most [depth] attempts, and either returns a value (after at least one
    attempt) or ends in [RecursionError] with all [depth] attempts spent; it
    raises no other exception. *)
Theorem generate_strong_password_effect depth length w :
  exists attempts,
    (attempts <= depth)%nat /\
    snd (generate_strong_password depth length w)
      = set_drawn (drawn w + attempts * Z.to_nat length) w /\
    ((exists password, fst (generate_strong_password depth length w) = Ret password /\
                       (1 <= attempts)%nat) \/
     (fst (generate_strong_password depth length w) = Raise RecursionError /\
      attempts = depth)).
Proof.
  destruct (generate_strong_password_cases depth length w)
    as [(p & k & Hk & Hp & _) | Hraise].
  - exists (S k). rewrite Hp. split; [lia|]. split; [done|]. left. exists p. split; [done | lia].
  - exists depth. rewrite Hraise. split; [lia|]. split; [done|]. by right.
Qed.

(** X3. The recursion limit matters only when it is hit: a value returned
    with [depth] frames available is returned, from the same state to the
    same state, with any larger number of frames. *)
Theorem generate_strong_password_deeper depth extra length w password w' :
  generate_strong_password depth length w = (Ret password, w') ->
  generate_strong_password (depth + extra) length w = (Ret password, w').
Proof.
  revert w. induction depth as [|depth IH]; intros w; cbn [generate_strong_password Nat.add];
    [discriminate|].
  unfold bind. destruct (sample (Z.to_nat length) w) as [[p|e] w1]; [|done].
  destruct (meets_requirements p); [done | apply IH].
Qed.

Lemma generate_strong_password_deeper_witness :
  let w := blank_world 0 (fun n => 23 * n + 5)%nat no_faults in
  generate_strong_password (2 + 998) 32 w
  = (Ret "P#rO@qN!pM9oL8nK7mJ6lI5kH4jG3iF2", set_drawn 64 w).
Proof.
  intros w. apply (generate_strong_password_deeper 2 998 32 w). reflexivity.
Defined.

Opaque generate_strong_password.

(** ** [setup] *)

(** The two ways [setup] can end. *)
Lemma setup_cases w :
  (faulty w = true /\
   exists e,
     setup w = (Raise e, set_open_cursors (S (open_cursors w))
                           (send (Execute CreateTables) false w))) \/
  (faulty w = false /\
   setup w = (Ret tt,
              set_logs (logs w ++ [(INFO, "Tables initialized")])
                (set_db (mkDatabase (roles (db w))
                           (Some (default (mkTable [] 1%nat) (rotation_history_tbl (db w))))
                           (Some (default (mkTable [] 1%nat) (app_credentials (db w)))))
                   (send (Execute CreateTables) true w)))).
Proof.
  destruct w. unfold setup. unfold_method. exec_request.
  - left. destruct Hwhy as [Hf | [msg Hmsg]]; [|discriminate]. eauto.
  - right. cbn [exec_stmt] in Hexec. injection Hexec as _ <-. by split.
Qed.

(** X4. [setup] never touches a role and keeps every stored row of both
    tables (CREATE TABLE IF NOT EXISTS).  When it returns, both tables exist
    and its cursor is closed; when the statement fails, the database is as
    before and the cursor stays open. *)
Theorem setup_keeps_rows w :
  roles (db (run setup w)) = roles (db w) /\
  audit (run setup w) = audit w /\
  credentials (run setup w) = credentials w /\
  (fst (setup w) = Ret tt ->
   is_Some (rotation_history_tbl (db (run setup w))) /\
   is_Some (app_credentials (db (run setup w))) /\
   open_cursors (run setup w) = open_cursors w) /\
  (forall e, fst (setup w) = Raise e ->
   db (run setup w) = db w /\ open_cursors (run setup w) = S (open_cursors w)).
Proof.
  unfold run, audit, credentials.
  destruct (setup_cases w) as [(_ & e & ->) | [_ ->]];
    destruct w as [[r h c] ?]; world_simpl; cbn.
  - split_and!; try done.
  - split_and!; try done.
    + by destruct h.
    + by destruct c.
Qed.

Lemma setup_keeps_rows_witness :
  let w := run (schedule_rotation "svc_a" 3)
             (run (create_app_user "svc_a" "InitialPass123!")
                (run setup (blank_world 1000 (fun n => n) (fault_at 7)))) in
  roles (db (run setup w)) = roles (db w) /\
  audit (run setup w) = audit w /\
  credentials (run setup w) = credentials w /\
  db (run setup w) = db w /\ open_cursors (run setup w) = S (open_cursors w).
Proof.
  intros w.
  destruct (setup_keeps_rows w) as (Hroles & Haudit & Hcred & _ & Hraise).
  split; [exact Hroles|]. split; [exact Haudit|]. split; [exact Hcred|].
  apply (Hraise (DatabaseError "server closed the connection unexpectedly")).
  vm_compute. reflexivity.
Defined.

(** X5. [setup] is idempotent on the database: after a [setup] that
    returned, a second [setup] (whether it goes through or not) leaves the
    database as the first one left it. *)
Theorem setup_idempotent w :
  fst (setup w) = Ret tt ->
  db (run setup (run setup w)) = db (run setup w).
Proof.
  intros Hok. unfold run.
  destruct (setup_cases w) as [(_ & e & H) | [_ H]]; rewrite H in *; [discriminate|].
  cbn [snd].
  match goal with |- context [setup ?w'] =>
    destruct (setup_cases w') as [(_ & e & ->) | [_ ->]] end; [done|].
  by destruct w as [[r [h|] [c|]] ?].
Qed.

Lemma setup_idempotent_witness :
  let w := run (schedule_rotation "svc_a" 3)
             (run setup (blank_world 1000 (fun n => n) no_faults)) in
  db (run setup (run setup w)) = db (run setup w).
Proof.
  intros w. apply (setup_idempotent w). vm_compute. reflexivity.
Defined.

(** ** Statements on roles *)

Lemma with_role_inv u f d result d' :
  with_role u f d = Ok result d' ->
  exists r, roles d !! u = Some r /\ roles d' !! u = Some (f r).
Proof.
  unfold with_role. destruct (roles d !! u) as [r|]; [|discriminate].
  intros [= _ <-]. exists r. split; [done|]. cbn. by rewrite lookup_insert_eq.
Qed.

(** A statement on roles leaves the two tables alone. *)
Lemma exec_stmt_tables_frame now s d result d' :
  exec_stmt now s d = Ok result d' ->
  targets s <> [] ->
  rotation_history_tbl d' = rotation_history_tbl d /\
  app_credentials d' = app_credentials d.
Proof.
  destruct s; cbn [exec_stmt targets]; intros Hexec Hs; try done;
    try (by eapply with_role_frame in Hexec as (-> & -> & _)).
  - destruct (roles d !! u) as [r|]; [destruct (has_privileges r)|]; by simplify_eq.
  - destruct (roles d !! u); by simplify_eq.
  - destruct (roles d !! u) as [r|]; [destruct (has_privileges r)|]; by simplify_eq.
  - destruct (roles d !! old), (roles d !! new); by simplify_eq.
Qed.

Lemma exec_create_user now u pw d result d' :
  exec_stmt now (CreateUser u pw) d = Ok result d' ->
  roles d !! u = None /\ roles d' !! u = Some (mkRole pw false false false).
Proof.
  cbn [exec_stmt]. destruct (roles d !! u); [discriminate|].
  intros [= _ <-]. split; [done|]. cbn. by rewrite lookup_insert_eq.
Qed.

Lemma exec_drop_if_exists now u d result d' :
  exec_stmt now (DropUserIfExists u) d = Ok result d' ->
  roles d' !! u = None /\
  (forall r, roles d !! u = Some r -> has_privileges r = false).
Proof.
  cbn [exec_stmt]. destruct (roles d !! u) as [r|] eqn:Hr.
  - destruct (has_privileges r) eqn:Hp; [discriminate|].
    intros [= _ <-]. split; [cbn; by rewrite lookup_delete_eq | congruence].
  - intros [= _ <-]. split; [done | congruence].
Qed.

(** What a statement on roles does to the roles it names. *)
Definition role_effect (s : stmt) (d d' : Database) : Prop :=
  match s with
  | DropUserIfExists u =>
      roles d' !! u = None /\
      (forall r, roles d !! u = Some r -> has_privileges r = false)
  | CreateUser u pw =>
      roles d !! u = None /\ roles d' !! u = Some (mkRole pw false false false)
  | GrantConnect u =>
      exists r, roles d !! u = Some r /\
        roles d' !! u = Some (mkRole (rolpassword r) true (schema_usage r) (table_dml r))
  | GrantUsage u =>
      exists r, roles d !! u = Some r /\
        roles d' !! u = Some (mkRole (rolpassword r) (db_connect r) true (table_dml r))
  | GrantTables u =>
      exists r, roles d !! u = Some r /\
        roles d' !! u = Some (mkRole (rolpassword r) (db_connect r) (schema_usage r) true)
  | AlterUserPassword u pw =>
      exists r, roles d !! u = Some r /\
        roles d' !! u = Some (mkRole pw (db_connect r) (schema_usage r) (table_dml r))
  | RevokeTables u =>
      exists r, roles d !! u = Some r /\
        roles d' !! u = Some (mkRole (rolpassword r) (db_connect r) (schema_usage r) false)
  | RevokeDatabase u =>
      exists r, roles d !! u = Some r /\
        roles d' !! u = Some (mkRole (rolpassword r) false (schema_usage r) (table_dml r))
  | RevokeSchema u =>
      exists r, roles d !! u = Some r /\
        roles d' !! u = Some (mkRole (rolpassword r) (db_connect r) false (table_dml r))
  | DropUser u =>
      roles d' !! u = None /\
      exists r, roles d !! u = Some r /\ has_privileges r = false
  | RenameUser old new =>
      exists r, roles d !! old = Some r /\ roles d !! new = None /\
        roles d' !! new = Some r /\ (old <> new -> roles d' !! old = None)
  | _ => True
  end.

Lemma exec_stmt_on_roles now s d result d' :
  exec_stmt now s d = Ok result d' ->
  targets s <> [] ->
  rotation_history_tbl d' = rotation_history_tbl d /\
  app_credentials d' = app_credentials d /\
  (forall x, ~ In x (targets s) -> roles d' !! x = roles d !! x) /\
  role_effect s d d'.
Proof.
  intros Hexec Hs.
  destruct (exec_stmt_tables_frame _ _ _ _ _ Hexec Hs) as [Hh Hc].
  split; [done|]. split; [done|].
  split; [intros x Hx; by eapply exec_stmt_roles_frame|].
  clear Hh Hc Hs. destruct s; cbn [role_effect]; try done;
    try (by eapply with_role_inv in Hexec).
  - by eapply exec_drop_if_exists.
  - by eapply exec_create_user.
  - cbn [exec_stmt] in Hexec. destruct (roles d !! u) as [r|]; [|discriminate].
    destruct (has_privileges r) eqn:Hp; [discriminate|]. injection Hexec as _ <-.
    split; [cbn; by rewrite lookup_delete_eq | eauto].
  - cbn [exec_stmt] in Hexec.
    destruct (roles d !! old) as [r|], (roles d !! new) eqn:Hn; try discriminate.
    injection Hexec as _ <-. exists r. split_and!; try done.
    + cbn. by rewrite lookup_insert_eq.
    + intros Hne. cbn. rewrite lookup_insert_ne by done. by rewrite lookup_delete_eq.
Qed.

(** Turn what is known about the executed statements on roles into
    equations on the roles and the tables. *)
Ltac role_facts :=
  repeat match goal with
    | H : exec_stmt _ _ _ = Ok _ _ |- _ =>
        let Hh := fresh "Hh" in
        let Hc := fresh "Hc" in
        let Hx := fresh "Hx" in
        let He := fresh "He" in
        apply exec_stmt_on_roles in H as (Hh & Hc & Hx & He); [|done];
        cbn [role_effect targets] in He, Hx
    end;
  repeat match goal with
    | H : exists _, _ |- _ => destruct H
    | H : _ /\ _ |- _ => destruct H
    end;
  world_simpl.

Ltac not_named :=
  let H := fresh in cbn [In]; intros H; repeat destruct H as [H|H]; done.



(** ** [create_app_user]: what it leaves behind *)

(** All requests of a run went through. *)
Definition all_ok (reqs : list (request * bool)) : bool := forallb snd reqs.



(** X7. [create_app_user] for a name that already exists and holds
    privileges changes nothing: DROP USER IF EXISTS fails, it is the only
    request sent, the error is logged, and the role keeps its old password
    (the one given to the call is not set). *)
Theorem create_app_user_existing_role username initial_password w r :
  roles (db w) !! username = Some r ->
  has_privileges r = true ->
  db (run (create_app_user username initial_password) w) = db w /\
  sent w (run (create_app_user username initial_password) w)
    = [(Execute (DropUserIfExists username), false)] /\
  exists msg,
    last (logs (run (create_app_user username initial_password) w))
      = Some (ERROR, "Failed to create user: " +:+ msg).
Proof.
  destruct w. unfold run, create_app_user. unfold_method. world_simpl.
  intros Hr Hp. exec_request.
  - sent_simpl. split; [done|]. split; [done|]. exists (str_exn e). by rewrite last_app.
  - role_facts.
    match goal with H : forall r, _ -> has_privileges r = false |- _ =>
      specialize (H _ Hr) end.
    congruence.
Qed.

Lemma create_app_user_existing_role_witness :
  let w := run (create_app_user "app_service" "InitialPass123!")
             (run setup (blank_world 1000 (fun n => n) no_faults)) in
  let w' := run (create_app_user "app_service" "Other456?") w in
  db w' = db w /\
  sent w w' = [(Execute (DropUserIfExists "app_service"), false)] /\
  exists msg, last (logs w') = Some (ERROR, "Failed to create user: " +:+ msg).
Proof.
  cbv zeta.
  apply (create_app_user_existing_role _ _ _ (mkRole "InitialPass123!" true true true));
    vm_compute; reflexivity.
Defined.

(** X8. [create_app_user] is not atomic: when one of the three GRANTs
    fails, the call still returns [None], and the role stays behind, created
    with the given password but without the privilege on tables. *)
Theorem create_app_user_grant_failure username initial_password w s :
  In (Execute s, false) (sent w (run (create_app_user username initial_password) w)) ->
  In s [GrantConnect username; GrantUsage username; GrantTables username] ->
  fst (create_app_user username initial_password w) = Ret tt /\
  exists r,
    roles (db (run (create_app_user username initial_password) w)) !! username = Some r /\
    rolpassword r = initial_password /\ table_dml r = false.
Proof.
  destruct w. unfold run, create_app_user. unfold_method.
  do 2 (exec_request; [sent_simpl; intros Hin Hs; split_in Hin; by split_in Hs|]).
  do 3 (exec_request;
        [sent_simpl; intros _ _; role_facts; simplify_eq; split; [done|];
         eexists; split; [eassumption|]; by split|]).
  sent_simpl. intros Hin Hs. by split_in Hin.
Qed.

Lemma create_app_user_grant_failure_witness :
  let w := run setup (blank_world 1000 (fun n => n) (fault_at 4)) in
  let w' := run (create_app_user "app_service" "InitialPass123!") w in
  fst (create_app_user "app_service" "InitialPass123!" w) = Ret tt /\
  exists r, roles (db w') !! "app_service" = Some r /\
            rolpassword r = "InitialPass123!" /\ table_dml r = false.
Proof.
  cbv zeta.
  apply (create_app_user_grant_failure _ _ _ (GrantUsage "app_service")).
  - vm_compute. do 3 right. left. reflexivity.
  - right. left. reflexivity.
Defined.

(** ** Rotations: the state they leave *)

(** The audit insert touches neither the roles nor the schedules. *)
Lemma exec_insert_history_frame now u rtype st note d result d' :
  exec_stmt now (InsertHistory u rtype st note) d = Ok result d' ->
  roles d' = roles d /\ app_credentials d' = app_credentials d.
Proof.
  cbn [exec_stmt]. destruct (rotation_history_tbl d) as [t|]; [|discriminate].
  intros H. by repeat case_match; simplify_eq.
Qed.

(** Instantiate at the role [y] the frames of the statements that do not
    name it. *)
Ltac frames_at y :=
  repeat match goal with
    | H : forall x, _ -> roles ?d' !! x = roles ?d !! x |- _ =>
        lazymatch goal with
        | _ : roles d' !! y = roles d !! y |- _ => fail
        | _ => idtac
        end;
        pose proof (H y ltac:(not_named))
    end.




(** X10. When the verification connection of [rotate_password] fails, the
    method returns [False] with the new password already set on the server:
    the role holds the generated value, nothing is recorded in the audit
    table or in [self.rotation_history], and the cursor is closed. *)
Theorem rotate_password_verification_failure depth username simulate w new_password :
  In (Connect username new_password, false)
     (sent w (run (rotate_password depth username simulate) w)) ->
  fst (rotate_password depth username simulate w) = Ret false /\
  (exists old,
     roles (db w) !! username = Some old /\
     roles (db (run (rotate_password depth username simulate) w)) !! username
       = Some (mkRole new_password (db_connect old) (schema_usage old) (table_dml old))) /\
  audit (run (rotate_password depth username simulate) w) = audit w /\
  rotation_history (run (rotate_password depth username simulate) w)
    = rotation_history w /\
  open_cursors (run (rotate_password depth username simulate) w) = open_cursors w.
Proof.
  destruct w. unfold run, rotate_password. unfold_method.
  exec_generate; [|sent_simpl; intros []].
  exec_request; [sent_simpl; intros Hin; by split_in Hin|].
  destruct simulate; cbv beta iota.
  - exec_request.
    + sent_simpl. intros Hin. split_in Hin.
      role_facts.
      split; [done|]. split; [eauto|]. split; [audit_unchanged | done].
    + exec_request; sent_simpl; intros Hin; by split_in Hin.
  - exec_request; sent_simpl; intros Hin; by split_in Hin.
Qed.

Lemma rotate_password_verification_failure_witness :
  let w := run (create_app_user "svc_a" "InitialPass123!")
             (run setup (blank_world 1000 (fun n => 17 * n)%nat (fault_at 7))) in
  let w' := run (rotate_password 1 "svc_a" true) w in
  fst (rotate_password 1 "svc_a" true w) = Ret false /\
  (exists old,
     roles (db w) !! "svc_a" = Some old /\
     roles (db w') !! "svc_a"
       = Some (mkRole "arIZ&pGX%nEV#lCT!jAR8hyP6fwN4duL"
                 (db_connect old) (schema_usage old) (table_dml old))) /\
  audit w' = audit w /\ rotation_history w' = rotation_history w /\
  open_cursors w' = open_cursors w.
Proof.
  cbv zeta. apply (rotate_password_verification_failure 1 "svc_a" true).
  vm_compute. right. left. reflexivity.
Defined.

(** X11. When the audit INSERT of [rotate_password] fails (the table is
    missing, say), the exception leaves the method after the password has
    been changed: the role holds the new value, [self.rotation_history] has
    no new entry, and the cursor stays open. *)
Theorem rotate_password_record_failure depth username simulate w rtype st note :
  In (Execute (InsertHistory username rtype st note), false)
     (sent w (run (rotate_password depth username simulate) w)) ->
  (exists e, fst (rotate_password depth username simulate w) = Raise e) /\
  (exists new_password old,
     roles (db w) !! username = Some old /\
     roles (db (run (rotate_password depth username simulate) w)) !! username
       = Some (mkRole new_password (db_connect old) (schema_usage old) (table_dml old))) /\
  rotation_history (run (rotate_password depth username simulate) w)
    = rotation_history w /\
  open_cursors (run (rotate_password depth username simulate) w)
    = S (open_cursors w).
Proof.
  destruct w. unfold run, rotate_password. unfold_method.
  exec_generate; [|sent_simpl; intros []].
  exec_request; [sent_simpl; intros Hin; by split_in Hin|].
  destruct simulate; cbv beta iota.
  - exec_request; [sent_simpl; intros Hin; by split_in Hin|].
    exec_request; sent_simpl; intros Hin; split_in Hin.
    all: role_facts; (split; [eauto|]);
      (split; [do 2 eexists; split; eassumption|]); done.
  - exec_request; sent_simpl; intros Hin; split_in Hin.
    all: role_facts; (split; [eauto|]);
      (split; [do 2 eexists; split; eassumption|]); done.
Qed.

Lemma rotate_password_record_failure_witness :
  let w := run (create_app_user "svc_a" "InitialPass123!")
             (blank_world 1000 (fun n => 17 * n)%nat no_faults) in
  let w' := run (rotate_password 1 "svc_a" true) w in
  (exists e, fst (rotate_password 1 "svc_a" true w) = Raise e) /\
  (exists new_password old,
     roles (db w) !! "svc_a" = Some old /\
     roles (db w') !! "svc_a"
       = Some (mkRole new_password (db_connect old) (schema_usage old) (table_dml old))) /\
  rotation_history w' = rotation_history w /\
  open_cursors w' = S (open_cursors w).
Proof.
  cbv zeta.
  apply (rotate_password_record_failure 1 "svc_a" true _ "password_rotation" "success"
           "Password rotated at 1001").
  vm_compute. do 2 right. left. reflexivity.
Defined.

(** ** The dual rotation: the roles it leaves *)



(** X13. A shadow role left behind with privileges blocks the dual
    rotation: the method does not return [True], the only statement it sends
    is the failing DROP USER IF EXISTS of the shadow, and the database is
    unchanged. *)
Theorem rotate_with_dual_password_blocked depth username w shadow :
  roles (db w) !! (username +:+ "_new") = Some shadow ->
  has_privileges shadow = true ->
  fst (rotate_with_dual_password depth username w) <> Ret true /\
  db (run (rotate_with_dual_password depth username) w) = db w /\
  forall s ok,
    In (Execute s, ok) (sent w (run (rotate_with_dual_password depth username) w)) ->
    s = DropUserIfExists (username +:+ "_new") /\ ok = false.
Proof.
  destruct w. unfold run, rotate_with_dual_password. unfold_method. world_simpl.
  intros Hshadow Hp.
  exec_generate; [|sent_simpl; by split_and!].
  exec_request.
  - sent_simpl. split_and!; [done | done |]. intros s ok Hin. by split_in Hin.
  - role_facts.
    match goal with H : forall r, _ -> has_privileges r = false |- _ =>
      specialize (H _ Hshadow) end.
    congruence.
Qed.

Lemma rotate_with_dual_password_blocked_witness :
  let w := run (rotate_with_dual_password 1 "svc_b")
             (run (create_app_user "svc_b" "InitialPass123!")
                (run setup (blank_world 1000 (fun n => 17 * n)%nat (fault_at 11)))) in
  let w' := run (rotate_with_dual_password 1 "svc_b") w in
  fst (rotate_with_dual_password 1 "svc_b" w) <> Ret true /\
  db w' = db w /\
  forall s ok, In (Execute s, ok) (sent w w') ->
    s = DropUserIfExists "svc_b_new" /\ ok = false.
Proof.
  cbv zeta.
  apply (rotate_with_dual_password_blocked 1 "svc_b" _
           (mkRole "arIZ&pGX%nEV#lCT!jAR8hyP6fwN4duL" true true true));
    vm_compute; reflexivity.
Defined.

(** X14. When the final RENAME of the dual rotation fails, the exception
    leaves the method with the principal's own name gone from the server:
    the old role has been dropped and the new one still carries the shadow
    name. *)
Theorem rotate_with_dual_password_rename_failure depth username w :
  In (Execute (RenameUser (username +:+ "_new") username), false)
     (sent w (run (rotate_with_dual_password depth username) w)) ->
  (exists e, fst (rotate_with_dual_password depth username w) = Raise e) /\
  roles (db (run (rotate_with_dual_password depth username) w)) !! username = None /\
  exists new_password,
    roles (db (run (rotate_with_dual_password depth username) w)) !! (username +:+ "_new")
      = Some (mkRole new_password true true true).
Proof.
  pose proof (append_suffix_ne username) as Hne.
  destruct w. unfold run, rotate_with_dual_password. unfold_method.
  exec_generate; [|sent_simpl; intros []].
  do 9 (exec_request; [sent_simpl; intros Hin; by split_in Hin|]).
  exec_request; [|exec_request; sent_simpl; intros Hin; by split_in Hin].
  sent_simpl. intros _. clear Hwhy. role_facts. frames_at (username +:+ "_new").
  simplify_eq. cbn [rolpassword db_connect schema_usage table_dml] in *.
  split; [eauto|]. split; [done|]. exists new_password. congruence.
Qed.

Lemma rotate_with_dual_password_rename_failure_witness :
  let w := run (create_app_user "svc_b" "InitialPass123!")
             (run setup (blank_world 1000 (fun n => 17 * n)%nat (fault_at 15))) in
  let w' := run (rotate_with_dual_password 1 "svc_b") w in
  (exists e, fst (rotate_with_dual_password 1 "svc_b" w) = Raise e) /\
  roles (db w') !! "svc_b" = None /\
  exists new_password,
    roles (db w') !! "svc_b_new" = Some (mkRole new_password true true true).
Proof.
  cbv zeta. apply (rotate_with_dual_password_rename_failure 1 "svc_b").
  vm_compute. do 9 right. left. reflexivity.
Defined.

(** X15. Both rotations close their cursor exactly when they return a
    value; whenever an exception leaves them (a failed retirement or audit
    statement, or [RecursionError] from the generator) the cursor they opened
    stays open. *)
Theorem rotation_cursor_accounting depth username simulate w :
  (forall v, fst (rotate_password depth username simulate w) = Ret v ->
     open_cursors (run (rotate_password depth username simulate) w) = open_cursors w) /\
  (forall e, fst (rotate_password depth username simulate w) = Raise e ->
     open_cursors (run (rotate_password depth username simulate) w) = S (open_cursors w)) /\
  (forall v, fst (rotate_with_dual_password depth username w) = Ret v ->
     open_cursors (run (rotate_with_dual_password depth username) w) = open_cursors w) /\
  (forall e, fst (rotate_with_dual_password depth username w) = Raise e ->
     open_cursors (run (rotate_with_dual_password depth username) w) = S (open_cursors w)).
Proof.
  destruct w. unfold run. split_and!.
  - unfold rotate_password. unfold_method. exec_generate; [|done].
    exec_request; [done|].
    destruct simulate; cbv beta iota; repeat (exec_request; [done|]); done.
  - unfold rotate_password. unfold_method. exec_generate; [|done].
    exec_request; [done|].
    destruct simulate; cbv beta iota; repeat (exec_request; [done|]); done.
  - unfold rotate_with_dual_password. unfold_method. exec_generate; [|done].
    repeat (exec_request; [done|]); done.
  - unfold rotate_with_dual_password. unfold_method. exec_generate; [|done].
    repeat (exec_request; [done|]); done.
Qed.

Lemma rotation_cursor_accounting_witness :
  let w := run (create_app_user "svc_b" "InitialPass123!")
             (run setup (blank_world 1000 (fun n => 17 * n)%nat (fault_at 11))) in
  open_cursors (run (rotate_password 1 "svc_b" true) w) = open_cursors w /\
  open_cursors (run (rotate_with_dual_password 1 "svc_b") w) = S (open_cursors w).
Proof.
  intros w.
  destruct (rotation_cursor_accounting 1 "svc_b" true w) as (Hret & _ & _ & Hraise).
  split.
  - apply (Hret true). vm_compute. reflexivity.
  - apply (Hraise (DatabaseError "server closed the connection unexpectedly")).
    vm_compute. reflexivity.
Defined.

(** ** The SERIAL keys *)

(** Every key stored in a table was issued by its sequence: it lies below
    the sequence's next value. *)
Definition serial_fresh (d : Database) : Prop :=
  (forall t, rotation_history_tbl d = Some t ->
     forall r, In r (rows t) -> (rotation_id r < serial t)%nat) /\
  (forall t, app_credentials d = Some t ->
     forall r, In r (rows t) -> (cred_id r < serial t)%nat).

Lemma exec_stmt_serial_fresh now s d result d' :
  exec_stmt now s d = Ok result d' -> serial_fresh d -> serial_fresh d'.
Proof.
  intros Hexec Hf. pose proof Hf as [Hh Hc].
  destruct (decide (targets s = [])) as [Hs|Hs].
  - destruct s; try discriminate Hs; cbn [exec_stmt] in Hexec.
    + injection Hexec as _ <-. split; cbn.
      * destruct (rotation_history_tbl d) as [t|]; intros ? [= <-]; cbn; [eauto | tauto].
      * destruct (app_credentials d) as [t|]; intros ? [= <-]; cbn; [eauto | tauto].
    + destruct (rotation_history_tbl d) as [t|] eqn:Ht; [|discriminate].
      repeat case_match; simplify_eq. split; cbn; [|done].
      intros ? [= <-] r. cbn. rewrite in_app_iff. intros [Hr | [<- | []]]; cbn.
      * specialize (Hh _ eq_refl _ Hr). lia.
      * lia.
    + destruct (app_credentials d) as [t|] eqn:Ht; [|discriminate].
      repeat case_match; simplify_eq; (split; cbn; [done|]); intros ? [= <-] r; cbn.
      * intros Hr. specialize (Hc _ eq_refl _ Hr). lia.
      * rewrite in_app_iff. intros [Hr | [<- | []]]; cbn; [|lia].
        specialize (Hc _ eq_refl _ Hr). lia.
    + destruct (app_credentials d); by simplify_eq.
  - destruct (exec_stmt_tables_frame _ _ _ _ _ Hexec Hs) as [Eh Ec].
    split; [rewrite Eh | rewrite Ec]; done.
Qed.

(** Push the invariant through the statements executed. *)
Ltac serial_facts :=
  repeat match goal with
    | H : exec_stmt _ _ ?d = Ok _ _, Hf : serial_fresh ?d |- _ =>
        apply (fun H' => exec_stmt_serial_fresh _ _ _ _ _ H' Hf) in H
    end.

(** X16. Every method keeps the invariant that the keys stored in a table
    lie below the next value of its SERIAL sequence. *)
Theorem serial_fresh_preserved depth username password simulate days w :
  serial_fresh (db w) ->
  serial_fresh (db (run setup w)) /\
  serial_fresh (db (run (create_app_user username password) w)) /\
  serial_fresh (db (run (rotate_password depth username simulate) w)) /\
  serial_fresh (db (run (rotate_with_dual_password depth username) w)) /\
  serial_fresh (db (run (schedule_rotation username days) w)) /\
  serial_fresh (db (run check_expired_credentials w)).
Proof.
  intros Hf.
  assert (serial_fresh (db (run check_expired_credentials w))) as Hcheck
    by (unfold run; by destruct (check_expired_credentials_pure w) as (-> & _)).
  destruct w. unfold run. world_simpl. split_and!; [| | | | | exact Hcheck].
  - unfold setup. unfold_method. exec_request; [done|]. by serial_facts.
  - unfold create_app_user. unfold_method.
    repeat (exec_request; [by serial_facts|]). by serial_facts.
  - unfold rotate_password. unfold_method. exec_generate; [|done].
    exec_request; [done|].
    destruct simulate; cbv beta iota;
      repeat (exec_request; [by serial_facts|]); by serial_facts.
  - unfold rotate_with_dual_password. unfold_method. exec_generate; [|done].
    repeat (exec_request; [by serial_facts|]). by serial_facts.
  - unfold schedule_rotation, timedelta_days, datetime_add. unfold_method.
    destruct (Z.abs days <=? 999999999)%Z; world_norm; [|done].
    match goal with |- context [if ?b then _ else _] => destruct b end;
      world_norm; [|done].
    exec_request; [done | by serial_facts].
Qed.

Lemma serial_fresh_preserved_witness :
  let w := run (schedule_rotation "svc_a" 90)
             (run setup (blank_world 1000 (fun n => n) no_faults)) in
  serial_fresh (db (run setup w)) /\
  serial_fresh (db (run (create_app_user "svc_a" "InitialPass123!") w)) /\
  serial_fresh (db (run (rotate_password 1 "svc_a" true) w)) /\
  serial_fresh (db (run (rotate_with_dual_password 1 "svc_a") w)) /\
  serial_fresh (db (run (schedule_rotation "svc_a" 90) w)) /\
  serial_fresh (db (run check_expired_credentials w)).
Proof.
  cbv zeta. apply serial_fresh_preserved.
  vm_compute. split; intros t [= <-] r Hr; vm_compute in Hr |- *.
  - destruct Hr.
  - destruct Hr as [<- | []]. vm_compute. lia.
Defined.

(** ** [schedule_rotation] *)

Lemma exec_insert_credential now service u expires d result d' t :
  exec_stmt now (InsertCredential service u expires) d = Ok result d' ->
  app_credentials d = Some t ->
  (forall r, In r (rows t) -> (cred_id r < serial t)%nat) ->
  app_credentials d'
    = Some (mkTable (rows t ++ [mkCredRow (serial t) service u None now (Some expires)])
                    (S (serial t))).
Proof.
  cbn [exec_stmt]. intros Hexec Ht Hfresh. rewrite Ht in Hexec.
  destruct (too_long 100 service || too_long 100 u); [discriminate|].
  destruct (existsb _ (rows t)) eqn:Hex; [|by injection Hexec as _ <-].
  apply existsb_exists in Hex as (r & Hr & Heq).
  apply Nat.eqb_eq in Heq. specialize (Hfresh r Hr). lia.
Qed.

Lemma schedule_rotation_appends_aux username days w t :
  app_credentials (db w) = Some t ->
  (forall r, In r (rows t) -> (cred_id r < serial t)%nat) ->
  fst (schedule_rotation username days w) = Ret tt ->
  app_credentials (db (run (schedule_rotation username days) w))
    = Some (mkTable (rows t ++ [mkCredRow (serial t) "database" username None (clock w)
                                  (Some (clock w + days * 86400))])
                    (S (serial t))) /\
  clock (run (schedule_rotation username days) w) = clock w.
Proof.
  destruct w. unfold run, schedule_rotation, timedelta_days, datetime_add.
  unfold_method. world_simpl. intros Ht Hfresh.
  destruct (Z.abs days <=? 999999999)%Z; world_norm; [|discriminate].
  match goal with |- context [if ?b then _ else _] => destruct b end;
    world_norm; [|discriminate].
  exec_request; [discriminate|]. intros _.
  eapply exec_insert_credential in Hexec; [|done..]. by rewrite Hexec.
Qed.

(** X17. On a table whose keys come from its sequence, every
    [schedule_rotation] that returns stores one more row, whatever is already
    stored for the principal: ON CONFLICT DO NOTHING never applies.  The row
    expires [days] days after the call. *)
Theorem schedule_rotation_appends username days w t :
  app_credentials (db w) = Some t ->
  (forall r, In r (rows t) -> (cred_id r < serial t)%nat) ->
  fst (schedule_rotation username days w) = Ret tt ->
  credentials (run (schedule_rotation username days) w)
    = (credentials w
       ++ [mkCredRow (serial t) "database" username None (clock w)
             (Some (clock w + days * 86400))])%list /\
  schedules_of username (run (schedule_rotation username days) w)
    = (schedules_of username w ++ [clock w + days * 86400])%list.
Proof.
  intros Ht Hfresh Hok.
  destruct (schedule_rotation_appends_aux username days w t Ht Hfresh Hok) as [Hcred _].
  unfold schedules_of, credentials. rewrite Hcred, Ht.
  split; [done|]. cbn [rows]. rewrite omap_app. cbn.
  by destruct (decide (username = username)).
Qed.

Lemma schedule_rotation_appends_witness :
  let w := run (schedule_rotation "svc_a" 90)
             (run setup (blank_world 1000 (fun n => n) no_faults)) in
  let w' := run (schedule_rotation "svc_a" 30) w in
  credentials w'
    = (credentials w
       ++ [mkCredRow 2 "database" "svc_a" None 1000 (Some (1000 + 30 * 86400))])%list /\
  schedules_of "svc_a" w' = (schedules_of "svc_a" w ++ [1000 + 30 * 86400])%list.
Proof.
  intros w w'.
  pose (t := mkTable [mkCredRow 1 "database" "svc_a" None 1000 (Some (1000 + 90 * 86400))]
                     2%nat).
  assert (app_credentials (db w) = Some t) as Ht by (vm_compute; reflexivity).
  assert (forall r, In r (rows t) -> (cred_id r < serial t)%nat) as Hfresh
    by (intros r [<- | []]; vm_compute; lia).
  assert (fst (schedule_rotation "svc_a" 30 w) = Ret tt) as Hok
    by (vm_compute; reflexivity).
  pose proof (schedule_rotation_appends "svc_a" 30 w t Ht Hfresh Hok) as H.
  vm_compute in H. vm_compute. exact H.
Defined.

(** X18. [schedule_rotation] raises [OverflowError] before it sends
    anything when the number of days is beyond what [timedelta] accepts or
    the expiry date falls outside the years 1 to 9999; the cursor it opened
    stays open and nothing else changes. *)
Theorem schedule_rotation_overflow username days w :
  999999999 < Z.abs days \/
  clock w + days * 86400 < datetime_min \/ datetime_max < clock w + days * 86400 ->
  schedule_rotation username days w
    = (Raise OverflowError, set_open_cursors (S (open_cursors w)) w).
Proof.
  destruct w. unfold schedule_rotation, timedelta_days, datetime_add.
  unfold_method. world_simpl. intros Hover.
  destruct (Z.leb_spec (Z.abs days) 999999999); world_norm; [|done].
  match goal with
  | |- context [(datetime_min <=? ?e)%Z] =>
      destruct (Z.leb_spec datetime_min e), (Z.leb_spec e datetime_max)
  end; cbn [andb]; world_norm; try done. lia.
Qed.

Lemma schedule_rotation_overflow_witness :
  let w := run setup (blank_world 1700000000 (fun n => n) no_faults) in
  schedule_rotation "svc_a" 3000000 w
    = (Raise OverflowError, set_open_cursors (S (open_cursors w)) w).
Proof.
  cbv zeta. apply schedule_rotation_overflow. right. right. vm_compute. reflexivity.
Defined.



(** * Properties of every run *)

(** ** Nothing is ever taken back *)

(** [w'] extends [w]: the stored rows, the in-memory history, the log and
    the requests sent have only grown, and the clock has not gone back. *)
Definition extends (w w' : World) : Prop :=
  (exists rows, audit w' = (audit w ++ rows)%list) /\
  (exists rows, credentials w' = (credentials w ++ rows)%list) /\
  (exists entries, rotation_history w' = (rotation_history w ++ entries)%list) /\
  (exists lines, logs w' = (logs w ++ lines)%list) /\
  (exists reqs, trace w' = (trace w ++ reqs)%list) /\
  clock w <= clock w'.

(** What one successful statement does to the rows of the two tables. *)
Lemma exec_stmt_rows_grow now s d result d' :
  exec_stmt now s d = Ok result d' ->
  (exists l, from_option rows [] (rotation_history_tbl d')
             = (from_option rows [] (rotation_history_tbl d) ++ l)%list) /\
  (exists l, from_option rows [] (app_credentials d')
             = (from_option rows [] (app_credentials d) ++ l)%list).
Proof.
  intros Hexec. destruct (decide (targets s = [])) as [Hs|Hs].
  - destruct s; try discriminate Hs; cbn [exec_stmt] in Hexec.
    + injection Hexec as _ <-. cbn.
      destruct (rotation_history_tbl d), (app_credentials d); cbn;
        split; exists []; by rewrite ?app_nil_r.
    + destruct (rotation_history_tbl d) as [t|] eqn:Ht; [|discriminate].
      repeat case_match; simplify_eq. cbn. split; [eauto|].
      exists []. by rewrite app_nil_r.
    + destruct (app_credentials d) as [t|] eqn:Ht; [|discriminate].
      repeat case_match; simplify_eq; cbn;
        (split; [exists []; by rewrite app_nil_r|]); [|eauto].
      exists []. by rewrite app_nil_r.
    + destruct (app_credentials d) eqn:Ht; [|discriminate].
      injection Hexec as _ <-. split; exists []; by rewrite ?Ht, app_nil_r.
  - destruct (exec_stmt_tables_frame _ _ _ _ _ Hexec Hs) as [-> ->].
    split; exists []; by rewrite app_nil_r.
Qed.

Lemma audit_from_option w : audit w = from_option rows [] (rotation_history_tbl (db w)).
Proof. unfold audit. by destruct (rotation_history_tbl (db w)). Qed.

Lemma credentials_from_option w :
  credentials w = from_option rows [] (app_credentials (db w)).
Proof. unfold credentials. by destruct (app_credentials (db w)). Qed.

Ltac solve_extends :=
  unfold extends, audit, credentials; cbn;
  split_and!; first [lia | exists []; by rewrite app_nil_r | by eauto].

(** [extends] is a preorder. *)
Lemma extends_refl w : extends w w.
Proof. destruct w. solve_extends. Qed.

Lemma extends_trans w1 w2 w3 : extends w1 w2 -> extends w2 w3 -> extends w1 w3.
Proof.
  intros ([a1 H1] & [b1 H2] & [c1 H3] & [d1 H4] & [e1 H5] & H6)
         ([a2 G1] & [b2 G2] & [c2 G3] & [d2 G4] & [e2 G5] & G6).
  unfold extends. rewrite G1, G2, G3, G4, G5, H1, H2, H3, H4, H5.
  rewrite <- !app_assoc. split_and!; eauto. lia.
Qed.

(** A computation whose every run extends the world it starts from. *)
Definition monotone {A} (m : M A) : Prop := forall w, extends w (snd (m w)).

Lemma monotone_bind {A B} (m : M A) (k : A -> M B) :
  monotone m -> (forall a, monotone (k a)) -> monotone (bind m k).
Proof.
  intros Hm Hk w. unfold bind. specialize (Hm w).
  destruct (m w) as [[a|e] w1]; cbn [snd] in *; [|done].
  eapply extends_trans; [exact Hm | apply Hk].
Qed.

Lemma monotone_try {A} (m : M A) (h : exn -> M A) :
  monotone m -> (forall e, monotone (h e)) -> monotone (try_except m h).
Proof.
  intros Hm Hh w. unfold try_except. specialize (Hm w).
  destruct (m w) as [[a|e] w1]; cbn [snd] in *; [done|].
  eapply extends_trans; [exact Hm | apply Hh].
Qed.

Lemma monotone_ret {A} (a : A) : monotone (ret a).
Proof. intros w. apply extends_refl. Qed.

Lemma monotone_raise {A} e : monotone (@raise A e).
Proof. intros w. apply extends_refl. Qed.

Lemma monotone_logger l msg : monotone (logger l msg).
Proof.
  intros []. solve_extends.
Qed.

Lemma monotone_conn_cursor : monotone conn_cursor.
Proof. intros []. solve_extends. Qed.

Lemma monotone_cursor_close : monotone cursor_close.
Proof. intros []. solve_extends. Qed.

Lemma monotone_datetime_now : monotone datetime_now.
Proof. intros w. apply extends_refl. Qed.

Lemma monotone_time_sleep secs : 0 <= secs -> monotone (time_sleep secs).
Proof.
  intros Hs []. solve_extends.
Qed.

Lemma monotone_cursor_execute s : monotone (cursor_execute s).
Proof.
  intros w. destruct (cursor_execute_cases s w)
    as [(e & _ & ->) | (result & d' & _ & Hexec & ->)]; cbn [snd].
  - destruct w. solve_extends.
  - apply exec_stmt_rows_grow in Hexec as [Hh Hc].
    unfold extends. rewrite !audit_from_option, !credentials_from_option.
    destruct w. cbn in *.
    split_and!; first [done | lia | exists []; by rewrite app_nil_r | by eauto].
Qed.

Lemma monotone_psycopg2_connect user pw : monotone (psycopg2_connect user pw).
Proof.
  intros w. destruct (psycopg2_connect_cases user pw w)
    as [(e & ->) | (r & _ & _ & _ & ->)]; cbn [snd]; destruct w; solve_extends.
Qed.

Lemma monotone_generate depth length : monotone (generate_strong_password depth length).
Proof.
  intros w. destruct (generate_strong_password_cases depth length w)
    as [(p & k & _ & -> & _) | ->]; cbn [snd]; destruct w; solve_extends.
Qed.

Lemma monotone_warn_each expired : monotone (warn_each expired).
Proof.
  induction expired as [|[u e] rest IH]; cbn [warn_each];
    [apply monotone_ret|].
  apply monotone_bind; [apply monotone_logger | by intros].
Qed.

Lemma monotone_append_entry e :
  monotone (fun w => (Ret tt, set_rotation_history (rotation_history w ++ [e]) w)).
Proof.
  intros []. solve_extends.
Qed.

Create HintDb monotone.
#[export] Hint Resolve monotone_ret monotone_raise monotone_logger monotone_conn_cursor
  monotone_cursor_close monotone_datetime_now monotone_cursor_execute
  monotone_psycopg2_connect monotone_generate monotone_warn_each
  monotone_append_entry : monotone.

Ltac monotone_tac :=
  repeat first
    [ apply monotone_bind; [|intros]
    | apply monotone_try; [|intros]
    | apply monotone_time_sleep; lia
    | solve [auto with monotone]
    | match goal with
      | |- monotone (match ?x with _ => _ end) => destruct x
      | |- monotone (if ?b then _ else _) => destruct b
      end ].

Lemma monotone_methods depth username password simulate days :
  monotone setup /\
  monotone (create_app_user username password) /\
  monotone (rotate_password depth username simulate) /\
  monotone (rotate_with_dual_password depth username) /\
  monotone (schedule_rotation username days) /\
  monotone check_expired_credentials.
Proof.
  unfold setup, create_app_user, rotate_password, rotate_with_dual_password,
    schedule_rotation, check_expired_credentials, timedelta_days, datetime_add.
  cbv zeta. split_and!; monotone_tac.
Qed.

(** X20. No method ever takes anything back: after any run of any of the
    six methods, whatever its outcome, the audit table, the schedule table,
    [self.rotation_history], the log and the list of requests sent are the
    old ones with something (possibly nothing) appended, and the clock has
    not gone back. *)
Theorem methods_only_append depth username password simulate days w :
  extends w (run setup w) /\
  extends w (run (create_app_user username password) w) /\
  extends w (run (rotate_password depth username simulate) w) /\
  extends w (run (rotate_with_dual_password depth username) w) /\
  extends w (run (schedule_rotation username days) w) /\
  extends w (run check_expired_credentials w).
Proof.
  destruct (monotone_methods depth username password simulate days)
    as (H1 & H2 & H3 & H4 & H5 & H6).
  unfold run. by split_and!.
Qed.

(** ** What a method never touches *)

(** Every run of [m] leaves the database in relation [R] with the one it
    started from. *)
Definition keeps {A} (R : Database -> Database -> Prop) (m : M A) : Prop :=
  forall w, R (db w) (db (snd (m w))).

Section Keeps.
Context (R : Database -> Database -> Prop).
Context (R_refl : forall d, R d d).
Context (R_trans : forall d1 d2 d3, R d1 d2 -> R d2 d3 -> R d1 d3).

Lemma keeps_bind {A B} (m : M A) (k : A -> M B) :
  keeps R m -> (forall a, keeps R (k a)) -> keeps R (bind m k).
Proof using R_trans.
  intros Hm Hk w. unfold bind. specialize (Hm w).
  destruct (m w) as [[a|e] w1]; cbn [snd] in *; [|done].
  eapply R_trans; [exact Hm | apply Hk].
Qed.

Lemma keeps_try {A} (m : M A) (h : exn -> M A) :
  keeps R m -> (forall e, keeps R (h e)) -> keeps R (try_except m h).
Proof using R_trans.
  intros Hm Hh w. unfold try_except. specialize (Hm w).
  destruct (m w) as [[a|e] w1]; cbn [snd] in *; [done|].
  eapply R_trans; [exact Hm | apply Hh].
Qed.

(** A step that leaves the database alone. *)
Lemma keeps_local {A} (m : M A) :
  (forall w, db (snd (m w)) = db w) -> keeps R m.
Proof using R_refl. intros Hm w. rewrite Hm. apply R_refl. Qed.

Lemma keeps_cursor_execute s :
  (forall now d result d', exec_stmt now s d = Ok result d' -> R d d') ->
  keeps R (cursor_execute s).
Proof using R_refl.
  intros Hs w. destruct (cursor_execute_cases s w)
    as [(e & _ & ->) | (result & d' & _ & Hexec & ->)]; destruct w; cbn.
  - apply R_refl.
  - by eapply Hs.
Qed.
End Keeps.

Lemma generate_strong_password_db depth length w :
  db (snd (generate_strong_password depth length w)) = db w.
Proof.
  destruct (generate_strong_password_cases depth length w)
    as [(p & k & _ & -> & _) | ->]; by destruct w.
Qed.

Lemma psycopg2_connect_db user pw w : db (snd (psycopg2_connect user pw w)) = db w.
Proof.
  destruct (psycopg2_connect_cases user pw w)
    as [(e & ->) | (r & _ & _ & _ & ->)]; by destruct w.
Qed.

Lemma warn_each_db expired w : db (snd (warn_each expired w)) = db w.
Proof. destruct (warn_each_logs expired w) as [l ->]. by destruct w. Qed.

(** Decompose a method into its steps; what is left are the statements
    it executes. *)
Ltac keeps_tac :=
  repeat first
    [ apply keeps_bind; [done | |intros]
    | apply keeps_try; [done | |intros]
    | apply keeps_local;
        [done
        | first [ apply generate_strong_password_db | apply psycopg2_connect_db
                | apply warn_each_db | by intros [] ] ]
    | match goal with
      | |- keeps _ (match ?x with _ => _ end) => destruct x
      | |- keeps _ (if ?b then _ else _) => destruct b
      end
    | apply keeps_cursor_execute; [done|] ].


(** The two tables are as they were. *)
Definition same_audit (d d' : Database) : Prop :=
  rotation_history_tbl d' = rotation_history_tbl d.
Definition same_credentials (d d' : Database) : Prop :=
  app_credentials d' = app_credentials d.
Definition same_roles (d d' : Database) : Prop := roles d' = roles d.



Lemma exec_insert_credential_frame now service u expires d result d' :
  exec_stmt now (InsertCredential service u expires) d = Ok result d' ->
  roles d' = roles d /\ rotation_history_tbl d' = rotation_history_tbl d.
Proof.
  cbn [exec_stmt]. destruct (app_credentials d) as [t|]; [|discriminate].
  intros H. by repeat case_match; simplify_eq.
Qed.

(** A statement other than the schedule insert and the table creation
    leaves [app_credentials] alone. *)
Lemma exec_stmt_credentials_frame now s d result d' :
  exec_stmt now s d = Ok result d' ->
  (forall service u expires, s <> InsertCredential service u expires) ->
  s <> CreateTables ->
  app_credentials d' = app_credentials d.
Proof.
  intros Hexec Hs Hc. destruct (decide (targets s = [])) as [Ht|Ht].
  - destruct s; try discriminate Ht; try done.
    + by apply exec_insert_history_frame in Hexec as [_ ->].
    + by destruct (Hs service u expires).
    + by apply exec_select_expiring in Hexec as [-> _].
  - by destruct (exec_stmt_tables_frame _ _ _ _ _ Hexec Ht) as [_ ->].
Qed.

(** X22. Whatever their outcome, [create_app_user] changes neither table,
    the two rotations leave the schedules alone, and [schedule_rotation]
    changes neither the audit table nor any role. *)
Theorem methods_leave_other_tables depth username password simulate days w :
  (audit (run (create_app_user username password) w) = audit w /\
   credentials (run (create_app_user username password) w) = credentials w) /\
  credentials (run (rotate_password depth username simulate) w) = credentials w /\
  credentials (run (rotate_with_dual_password depth username) w) = credentials w /\
  (audit (run (schedule_rotation username days) w) = audit w /\
   roles (db (run (schedule_rotation username days) w)) = roles (db w)).
Proof.
  assert (forall m : M unit, keeps same_audit m -> audit (run m w) = audit w) as Haudit
    by (intros m Hm; unfold audit, run; by rewrite (Hm w)).
  assert (forall A (m : M A), keeps same_credentials m ->
            credentials (run m w) = credentials w) as Hcred
    by (intros A m Hm; unfold credentials, run; by rewrite (Hm w)).
  assert (forall d1 d2 d3, same_audit d1 d2 -> same_audit d2 d3 -> same_audit d1 d3)
    by (unfold same_audit; congruence).
  assert (forall d1 d2 d3,
            same_credentials d1 d2 -> same_credentials d2 d3 -> same_credentials d1 d3)
    by (unfold same_credentials; congruence).
  assert (forall d1 d2 d3, same_roles d1 d2 -> same_roles d2 d3 -> same_roles d1 d3)
    by (unfold same_roles; congruence).
  assert (forall d, same_roles d d) by done.
  assert (forall d, same_audit d d) by done.
  assert (forall d, same_credentials d d) by done.
  split_and!.
  - apply Haudit. unfold create_app_user. keeps_tac;
      intros now d result d' Hexec;
      by eapply exec_stmt_history_frame in Hexec.
  - apply Hcred. unfold create_app_user. keeps_tac;
      intros now d result d' Hexec;
      by eapply exec_stmt_credentials_frame in Hexec.
  - apply Hcred. unfold rotate_password. keeps_tac;
      intros now d result d' Hexec;
      by eapply exec_stmt_credentials_frame in Hexec.
  - apply Hcred. unfold rotate_with_dual_password. cbv zeta. keeps_tac;
      intros now d result d' Hexec;
      by eapply exec_stmt_credentials_frame in Hexec.
  - apply Haudit. unfold schedule_rotation, timedelta_days, datetime_add. keeps_tac.
    intros now d result d' Hexec.
    by apply exec_insert_credential_frame in Hexec as [_ ?].
  - unfold run. change (same_roles (db w) (db (snd (schedule_rotation username days w)))).
    cut (keeps same_roles (schedule_rotation username days)); [by intros Hk|].
    unfold schedule_rotation, timedelta_days, datetime_add. keeps_tac.
    intros now d result d' Hexec.
    by apply exec_insert_credential_frame in Hexec as [? _].
Qed.

(** ** The conversation with the server *)

(** At most [n] requests, and none after one that failed. *)
Definition orderly (n : nat) (reqs : list (request * bool)) : Prop :=
  all_ok (removelast reqs) = true /\ (List.length reqs <= n)%nat.

(** X23. No method talks to the server after a request of its own has
    failed, and each sends at most a fixed number of requests: one for
    [setup], [schedule_rotation] and [check_expired_credentials], five for
    [create_app_user], three for [rotate_password], eleven for
    [rotate_with_dual_password]. *)
Theorem methods_stop_at_first_failure depth username password simulate days w :
  orderly 1 (sent w (run setup w)) /\
  orderly 5 (sent w (run (create_app_user username password) w)) /\
  orderly 3 (sent w (run (rotate_password depth username simulate) w)) /\
  orderly 11 (sent w (run (rotate_with_dual_password depth username) w)) /\
  orderly 1 (sent w (run (schedule_rotation username days) w)) /\
  orderly 1 (sent w (run check_expired_credentials w)).
Proof.
  destruct w. unfold orderly, run, all_ok.
  refine (conj _ (conj _ (conj _ (conj _ (conj _ _))))).
  - unfold setup. unfold_method. exec_request; sent_simpl; cbn; split; (done || lia).
  - unfold create_app_user. unfold_method.
    repeat (exec_request; [sent_simpl; cbn; split; (done || lia)|]).
    sent_simpl; cbn; split; (done || lia).
  - unfold rotate_password. unfold_method.
    exec_generate; [|sent_simpl; cbn; split; (done || lia)].
    exec_request; [sent_simpl; cbn; split; (done || lia)|].
    destruct simulate; cbv beta iota;
      repeat (exec_request; [sent_simpl; cbn; split; (done || lia)|]);
      sent_simpl; cbn; split; (done || lia).
  - unfold rotate_with_dual_password. unfold_method.
    exec_generate; [|sent_simpl; cbn; split; (done || lia)].
    repeat (exec_request; [sent_simpl; cbn; split; (done || lia)|]).
    sent_simpl; cbn; split; (done || lia).
  - unfold schedule_rotation, timedelta_days, datetime_add. unfold_method.
    destruct (Z.abs days <=? 999999999)%Z; world_norm;
      [|sent_simpl; cbn; split; (done || lia)].
    match goal with |- context [if ?b then _ else _] => destruct b end;
      world_norm; [|sent_simpl; cbn; split; (done || lia)].
    exec_request; sent_simpl; cbn; split; (done || lia).
  - unfold check_expired_credentials. unfold_method.
    exec_request; [sent_simpl; cbn; split; (done || lia)|].
    destruct result as [|x rest]; [sent_simpl; cbn; split; (done || lia)|].
    match goal with |- context [warn_each ?l ?w'] =>
      destruct (warn_each_logs l w') as [l' ->] end.
    sent_simpl; cbn; split; (done || lia).
Qed.

(** ** The instance and its connection *)

(** An instance of [SecretsRotation]: the world its methods act on, and
    whether [self.conn] holds a connection. *)
Record Instance := mkInstance {
  world : World;
  conn : bool
}.

(** [SecretsRotation()]: no connection, an empty [rotation_history]. *)
Definition init (w : World) : Instance :=
  mkInstance (set_rotation_history [] w) false.

(** [connect(password)]: the superuser [postgres] is a role of the server
    like the others; the connection obtained is kept in [self.conn] (in
    autocommit mode, which [exec_stmt] assumes). *)
Definition connect (password : string) (i : Instance) : outcome bool * Instance :=
  match psycopg2_connect "postgres" password (world i) with
  | (Ret _, w) =>
      (Ret true, mkInstance (run (logger INFO "Connected to database") w) true)
  | (Raise e, w) =>
      (Ret false,
       mkInstance (run (logger ERROR ("Connection failed: " +:+ str_exn e)) w) (conn i))
  end.

Transparent psycopg2_connect.
Lemma psycopg2_connect_accepts user pw w r :
  faulty w = false -> roles (db w) !! user = Some r -> rolpassword r = pw ->
  fst (psycopg2_connect user pw w) = Ret tt.
Proof.
  intros Hf Hr Hpw. unfold psycopg2_connect. rewrite Hf, Hr.
  by destruct (decide (rolpassword r = pw)).
Qed.
Opaque psycopg2_connect.

(** X24. [connect] never raises.  It returns [True] exactly when the server
    answers and [postgres] has the given password; then [self.conn] is set.
    When it returns [False], [self.conn] is what it was.  Either way it has
    sent one connection request and changed nothing on the server. *)
Theorem connect_reports password i :
  exists connected,
    fst (connect password i) = Ret connected /\
    (connected = true <->
       faulty (world i) = false /\
       exists r, roles (db (world i)) !! "postgres" = Some r /\ rolpassword r = password) /\
    conn (snd (connect password i)) = connected || conn i /\
    sent (world i) (world (snd (connect password i)))
      = [(Connect "postgres" password, connected)] /\
    db (world (snd (connect password i))) = db (world i) /\
    rotation_history (world (snd (connect password i))) = rotation_history (world i).
Proof.
  destruct i as [w c]. unfold connect. cbn [world conn].
  destruct (psycopg2_connect_cases "postgres" password w)
    as [(e & H) | (r & Hf & Hr & Hpw & H)].
  - exists false. rewrite H. revert H. destruct w. intros H. unfold run, logger. world_norm. cbn [world conn].
    sent_simpl. split_and!; try done.
    split; [done|]. intros (Hf & r & Hr & Hpw).
    pose proof (psycopg2_connect_accepts _ _ _ _ Hf Hr Hpw) as Hok.
    by rewrite H in Hok.
  - exists true. rewrite H. destruct w. unfold run, logger. world_norm. cbn [world conn].
    sent_simpl. split_and!; try done. split; eauto.
Qed.

Lemma connect_reports_witness :
  let server :=
    mkWorld (mkDatabase {[ "postgres" := mkRole "postgres" false false false ]} None None)
            1000 (fun n => n) 0 no_faults [] 0 [] [] in
  fst (connect "postgres" (init server)) = Ret true /\
  conn (snd (connect "postgres" (init server))) = true /\
  fst (connect "guess" (init server)) = Ret false /\
  conn (snd (connect "guess" (init server))) = false.
Proof.
  intros server.
  destruct (connect_reports "postgres" (init server))
    as (c1 & Hret1 & Hiff1 & Hconn1 & _).
  destruct (connect_reports "guess" (init server))
    as (c2 & Hret2 & Hiff2 & Hconn2 & _).
  assert (c1 = true) as ->.
  { apply Hiff1. split; [reflexivity|]. eexists. split; [vm_compute|]; reflexivity. }
  assert (c2 = false) as ->.
  { destruct c2; [|reflexivity].
    destruct Hiff2 as [Hiff2 _]. destruct (Hiff2 eq_refl) as (_ & r & Hr & Hpw).
    vm_compute in Hr. injection Hr as <-. discriminate Hpw. }
  by rewrite Hconn1, Hconn2.
Defined.

(** ** Rotating a principal that does not exist *)



(** ** What the scan logs *)

Lemma warn_each_map expired w :
  warn_each expired w
  = (Ret tt,
     set_logs (logs w ++ map (fun '(username, expires) =>
                                (WARNING, "  " +:+ username +:+ " expires: "
                                          +:+ str_datetime expires)) expired) w).
Proof.
  revert w. induction expired as [|[u e] rest IH]; intros w.
  - cbn. rewrite app_nil_r. by destruct w.
  - cbn [warn_each map]. unfold bind, logger. cbn [fst snd]. rewrite IH.
    destruct w. cbn. by rewrite <- app_assoc.
Qed.

(** X26. When [check_expired_credentials] returns, it has closed its cursor
    and has logged nothing for an empty result, and otherwise one warning
    with the number of schedules found followed by one warning per schedule,
    in the order returned. *)
Theorem check_expired_credentials_warnings w expired :
  fst (check_expired_credentials w) = Ret expired ->
  logs (run check_expired_credentials w)
    = (logs w ++
       match expired with
       | [] => []
       | _ :: _ =>
           (WARNING, "Found " +:+ str_nat (List.length expired)
                     +:+ " credential(s) expiring soon")
           :: map (fun '(username, expires) =>
                     (WARNING, "  " +:+ username +:+ " expires: " +:+ str_datetime expires))
                  expired
       end)%list /\
  open_cursors (run check_expired_credentials w) = open_cursors w.
Proof.
  destruct w. unfold run, check_expired_credentials. unfold_method.
  exec_request; [discriminate|].
  destruct result as [|x rest].
  - intros [= <-]. cbn. by rewrite app_nil_r.
  - rewrite warn_each_map. world_norm. intros [= <-]. cbn. by rewrite <- app_assoc.
Qed.

Lemma check_expired_credentials_warnings_witness :
  let w := run (schedule_rotation "svc_a" 3)
             (run setup (blank_world 1000 (fun n => n) no_faults)) in
  logs (run check_expired_credentials w)
    = (logs w ++ [(WARNING, "Found 1 credential(s) expiring soon");
                  (WARNING, "  svc_a expires: 260200")])%list /\
  open_cursors (run check_expired_credentials w) = open_cursors w.
Proof.
  intros w.
  apply (check_expired_credentials_warnings w [("svc_a", 260200)]).
  vm_compute. reflexivity.
Defined.
